(** * ace (actinia command execution): tokenizer, process chain, polling client

    A shallow embedding of the core of [ace.py]:
    [split_grass_command], [create_actinia_process] and
    [send_poll_commands], together with the properties of the
    specification that concern them.

    Python [str] values are modelled by [string]; a raised exception by the
    [Raise] constructor of a result type; printed output and HTTP traffic by
    a trace of events. *)

From Stdlib Require Import String Ascii List Bool Arith Lia ZArith QArith.
Import ListNotations.
Local Close Scope Q_scope.
Local Open Scope list_scope.
Local Open Scope string_scope.

(** ** Exceptions and results *)

(** The Python exceptions the modelled code can raise.  [SystemExit] is what
    [grass.fatal] ends with, after it has shown its message. *)
Inductive exn : Type :=
| ValueError            (* unpacking a list of the wrong length; a null
                           character in an argument of [Popen] *)
| IndexError            (* [s[-1]] or [l[0]] on an empty sequence *)
| KeyError (k : string) (* [d[k]] on a dict without [k] *)
| TypeError             (* subscript, iteration or [in] on a wrong type *)
| JSONDecodeError       (* [simplejson.loads] on text that is not JSON *)
| UnicodeDecodeError    (* [bytes.decode] *)
| OSError               (* [subprocess.Popen] could not start the program *)
| RequestException      (* [requests.get] on something that is no URL *)
| Exception (msg : string)
| SystemExit (msg : string).

Inductive result (A : Type) : Type :=
| Ok (a : A)
| Raise (e : exn).
Arguments Ok {A} a.
Arguments Raise {A} e.

Definition rbind {A B} (m : result A) (k : A -> result B) : result B :=
  match m with
  | Ok a => k a
  | Raise e => Raise e
  end.

(** [for i, x in enumerate(xs): xs[i] = f(x)] where [f] may raise: the
    elements are rewritten from left to right and the first exception ends
    the loop. *)
Fixpoint map_result {A B} (f : A -> result B) (xs : list A) : result (list B) :=
  match xs with
  | [] => Ok []
  | x :: rest =>
      rbind (f x) (fun y => rbind (map_result f rest) (fun ys => Ok (y :: ys)))
  end.

(** ** Python string operations used by the tokenizer *)

Definition DQ : ascii := "034"%char.   (* the double quote *)
Definition SQ : ascii := "039"%char.   (* the single quote *)
Definition SP : ascii := " "%char.
Definition EQ : ascii := "="%char.

Definition chr (c : ascii) : string := String c EmptyString.

(** [c in s] for a one-character string [c]. *)
Fixpoint contains_char (c : ascii) (s : string) : bool :=
  match s with
  | EmptyString => false
  | String x r => Ascii.eqb x c || contains_char c r
  end.

(** [s[-1]], [None] standing for the [IndexError] of the empty string. *)
Fixpoint last_char (s : string) : option ascii :=
  match s with
  | EmptyString => None
  | String x EmptyString => Some x
  | String _ r => last_char r
  end.

(** [s.startswith(c)] for a one-character string [c]. *)
Definition startswith_char (c : ascii) (s : string) : bool :=
  match s with
  | EmptyString => false
  | String x _ => Ascii.eqb x c
  end.

Fixpoint lstrip (c : ascii) (s : string) : string :=
  match s with
  | EmptyString => EmptyString
  | String x r => if Ascii.eqb x c then lstrip c r else s
  end.

Fixpoint rstrip (c : ascii) (s : string) : string :=
  match s with
  | EmptyString => EmptyString
  | String x r =>
      match rstrip c r with
      | EmptyString => if Ascii.eqb x c then EmptyString else chr x
      | r' => String x r'
      end
  end.

(** [s.strip(c)]: every leading and every trailing [c] goes. *)
Definition strip (c : ascii) (s : string) : string := rstrip c (lstrip c s).

(** [sep.join(tokens)] for a one-character separator. *)
Fixpoint join (sep : ascii) (tokens : list string) : string :=
  match tokens with
  | [] => EmptyString
  | [t] => t
  | t :: rest => t ++ String sep (join sep rest)
  end.

Definition join_spaces : list string -> string := join SP.

(** ** The tokenizer: [split_grass_command] *)

Definition is_quote (c : ascii) : bool := Ascii.eqb c DQ || Ascii.eqb c SQ.

Definition has_quote (s : string) : bool :=
  contains_char SQ s || contains_char DQ s.

(** The lookahead shared by [SPACE_MATCHER] and [EQUALS_MATCHER].  Writing
    [Q] for the class of the two quote characters and [N] for its
    complement, it is

      (?=(?:N*QN*Q)*N*$)

    and it runs on the text that follows the candidate separator.  [la_even]
    is the matcher at the start of an iteration of the group (or inside the
    final [N*]): the end of the text is a match, a quote character enters the
    group.  [la_odd] is the matcher after the first quote character of the
    group: it needs a second quote character, and the end of the text is a
    failure.  The class [N] also takes a newline, so [$] before a final
    newline accepts nothing that the end of the text does not. *)
Fixpoint la_even (s : string) : bool :=
  match s with
  | EmptyString => true
  | String c r => if is_quote c then la_odd r else la_even r
  end
with la_odd (s : string) : bool :=
  match s with
  | EmptyString => false
  | String c r => if is_quote c then la_even r else la_odd r
  end.

(** [re.compile(sep + lookahead).split(s)]: the text is cut at every [sep]
    after which the lookahead matches; the separators are dropped and empty
    pieces are kept. *)
Fixpoint re_split (sep : ascii) (s : string) : list string :=
  match s with
  | EmptyString => [EmptyString]
  | String c r =>
      if Ascii.eqb c sep && la_even r then EmptyString :: re_split sep r
      else match re_split sep r with
           | t :: ts => String c t :: ts
           | [] => [chr c]
           end
  end.

Definition SPACE_MATCHER_split : string -> list string := re_split SP.
Definition EQUALS_MATCHER_split : string -> list string := re_split EQ.

(** The body of the loop over the tokens: the new value of [tokens[i]]. *)
Definition normalize_token (token : string) : result string :=
  if contains_char EQ token && has_quote token then
    match EQUALS_MATCHER_split token with
    | [par; val] =>
        match last_char val with
        | None => Raise IndexError
        | Some l =>
            if startswith_char l val
            then Ok (par ++ String EQ (strip SQ (strip DQ val)))
            else Ok token
        end
    | _ => Raise ValueError
    end
  else Ok token.

Definition split_grass_command (grass_command : string) : result (list string) :=
  map_result normalize_token (SPACE_MATCHER_split grass_command).

(** ** JSON values as [simplejson.loads] returns them *)

(** A parsed JSON document is a Python value: [None], a [bool], a number, a
    [str], a [list] or a [dict].  A [dict] keeps the order in which its keys
    were inserted, and iterating over it yields the keys in that order, so it
    is kept as an association list (looked up from the front).  [JNumber]
    holds the value of a Python [int] or finite [float]. *)
#[warnings="-register-all"]
Inductive json : Type :=
| JNull
| JBool (b : bool)
| JNumber (q : Q)
| JString (s : string)
| JArray (items : list json)
| JObject (fields : list (string * json)).

Fixpoint assoc (k : string) (fields : list (string * json)) : option json :=
  match fields with
  | [] => None
  | (k', v) :: rest => if String.eqb k' k then Some v else assoc k rest
  end.

(** The truth value of [if x:]. *)
Definition truthy (x : json) : bool :=
  match x with
  | JNull => false
  | JBool b => b
  | JNumber q => negb (Z.eqb (Qnum q) 0)
  | JString EmptyString => false
  | JString _ => true
  | JArray [] => false
  | JArray _ => true
  | JObject [] => false
  | JObject _ => true
  end.

(** [x == s] for a string literal [s]. *)
Definition is_str (x : json) (s : string) : bool :=
  match x with
  | JString t => String.eqb t s
  | _ => false
  end.

(** [x[k]] for a string key [k]. *)
Definition getitem (x : json) (k : string) : result json :=
  match x with
  | JObject fields =>
      match assoc k fields with
      | Some v => Ok v
      | None => Raise (KeyError k)
      end
  | _ => Raise TypeError
  end.

(** [x[0]] *)
Definition getitem0 (x : json) : result json :=
  match x with
  | JArray (v :: _) => Ok v
  | JArray [] => Raise IndexError
  | JString (String c _) => Ok (JString (chr c))
  | JString EmptyString => Raise IndexError
  | JObject _ => Raise (KeyError "0")
  | _ => Raise TypeError
  end.

Fixpoint chars (s : string) : list json :=
  match s with
  | EmptyString => []
  | String c r => JString (chr c) :: chars r
  end.

(** The elements that [for entry in x:] runs over. *)
Definition iter (x : json) : result (list json) :=
  match x with
  | JArray items => Ok items
  | JObject fields => Ok (map (fun kv => JString (fst kv)) fields)
  | JString s => Ok (chars s)
  | _ => Raise TypeError
  end.

Fixpoint is_prefix (p s : string) : bool :=
  match p, s with
  | EmptyString, _ => true
  | String a p', String b s' => Ascii.eqb a b && is_prefix p' s'
  | String _ _, EmptyString => false
  end.

Fixpoint is_substring (p s : string) : bool :=
  is_prefix p s ||
  match s with
  | EmptyString => false
  | String _ r => is_substring p r
  end.

(** [k in x] for a string [k]: key membership in a dict, element membership
    in a list, substring test in a string, [TypeError] otherwise. *)
Definition key_in (k : string) (x : json) : result bool :=
  match x with
  | JObject fields =>
      Ok (match assoc k fields with Some _ => true | None => false end)
  | JArray items => Ok (existsb (fun v => is_str v k) items)
  | JString s => Ok (is_substring k s)
  | _ => Raise TypeError
  end.

(** ** The world outside the script *)

(** What the code calls and does not define: the JSON library, the
    subprocess of the compiler, the decoding of its output and the text
    Python gives for a value. *)
Class Runtime : Type := {
  (** [simplejson.loads]; [None] when it raises. *)
  loads : string -> option json;
  (** [simplejson.dumps(_, sort_keys=False, indent=2 * ' ')] *)
  dumps : json -> string;
  (** [Popen(args=command, ...)] followed by [communicate()]: the bytes of
      standard output and standard error and the return code; [None] when
      [Popen] raises instead of starting the program. *)
  popen_communicate : list string -> option (string * string * Z);
  (** [bytes.decode()]; [None] when the bytes are not UTF-8. *)
  decode : string -> option string;
  (** [str(command)] for a list of strings. *)
  str_of_list : list string -> string;
  (** [str(x)] for a parsed value that is not a string. *)
  repr : json -> string
}.

(** The text an f-string gives for a parsed value. *)
Definition py_str `{Runtime} (x : json) : string :=
  match x with
  | JString s => s
  | _ => repr x
  end.

Record response : Type := {
  status_code : Z;
  text : string
}.

(** The module's global variables that [send_poll_commands] reads.
    [PCHAIN] is [{version: 1, list: PCHAIN_list}] with the version as the
    string of one digit. *)
Record globals : Type := {
  ACTINIA_URL : string;
  ACTINIA_VERSION : string;
  ACTINIA_USER : string;
  LOCATION : option string;
  DRY_RUN : bool;
  PCHAIN_list : list json
}.

Definition PCHAIN_of (ops : list json) : json :=
  JObject [("version", JString "1"); ("list", JArray ops)].

(** ** Output and traffic *)

Inductive arg : Type :=
| AStr (s : string)
| AVal (x : json).

Inductive event : Type :=
| Print (args : list arg)            (* [print(a, b, ...)] *)
| PPrint (x : json)                  (* [pprint(x)] *)
| Post (url : string) (body : json)  (* [requests.post(url, json=body)] *)
| Get (url : string)                 (* [requests.get(url)] *)
| Sleep (seconds : nat).             (* [time.sleep(seconds)] *)

(** A run: the events so far and how it ended.  [None] is a run that is
    still waiting for a response the scripted server does not have. *)
Definition io (A : Type) : Type := (list event * option (result A))%type.

Definition ret {A} (a : A) : io A := ([], Some (Ok a)).
Definition raise {A} (e : exn) : io A := ([], Some (Raise e)).
Definition emit (e : event) : io unit := ([e], Some (Ok tt)).
Definition lift {A} (r : result A) : io A := ([], Some r).

Definition bind {A B} (m : io A) (k : A -> io B) : io B :=
  match m with
  | (t, Some (Ok a)) => let (t', o) := k a in ((t ++ t')%list, o)
  | (t, Some (Raise e)) => (t, Some (Raise e))
  | (t, None) => (t, None)
  end.

Declare Scope io_scope.
Delimit Scope io_scope with io.
Notation "x <- m ;; k" := (bind m (fun x => k))
  (at level 61, m at next level, right associativity) : io_scope.
Notation "m ;; k" := (bind m (fun _ => k))
  (at level 61, right associativity) : io_scope.
Local Open Scope io_scope.

Definition trace {A} (m : io A) : list event := fst m.
Definition outcome {A} (m : io A) : option (result A) := snd m.

Definition is_get (e : event) : bool :=
  match e with Get _ => true | _ => false end.

(** The number of polls a run has issued. *)
Definition polls {A} (m : io A) : nat := length (filter is_get (trace m)).

Fixpoint for_each {A} (xs : list A) (body : A -> io unit) : io unit :=
  match xs with
  | [] => ret tt
  | x :: rest => body x ;; for_each rest body
  end.

(** ** The operation compiler: [create_actinia_process] *)

Definition NL : string := chr "010"%char.

Definition NUL : ascii := "000"%char.

Definition help_flag : string := "--help".
Definition json_flag : string := "--json".

Definition mem (x : string) (xs : list string) : bool :=
  existsb (String.eqb x) xs.

(** [if json_flag not in command: command.append(json_flag)] *)
Definition with_json_flag (command : list string) : list string :=
  if mem json_flag command then command else (command ++ [json_flag])%list.

Section Client.
Context `{Runtime}.

(** Python's [None] is the value [JNull], which is also what the function
    gives when the tool prints the JSON document [null].  When [Popen]
    raises, it is with [ValueError] for an argument that holds a null
    character and with an [OSError] when the program cannot be started. *)
Definition create_actinia_process (command : list string) : result json :=
  match command with
  | [] => Ok JNull
  | _ =>
      if mem help_flag command then
        Raise (Exception ("--help is not allowed inside grass_command: "
                          ++ str_of_list command))
      else
        let command := with_json_flag command in
        match popen_communicate command with
        | None =>
            Raise (if existsb (contains_char NUL) command
                   then ValueError else OSError)
        | Some (out, err, returncode) =>
            match decode out with
            | None => Raise UnicodeDecodeError
            | Some stdout_buff =>
                match decode err with
                | None => Raise UnicodeDecodeError
                | Some stderr_buff =>
                    if negb (Z.eqb returncode 0) then
                      Raise (Exception
                        ("Error while executing GRASS command: "
                         ++ str_of_list command ++ ". " ++ NL
                         ++ NL ++ stdout_buff ++ NL ++ stderr_buff ++ NL))
                    else
                      match loads stdout_buff with
                      | Some actinia_proc => Ok actinia_proc
                      | None => Raise JSONDecodeError
                      end
                end
            end
        end
  end.

(** ** The chain builder: the first loop of [send_poll_commands] *)

(** [if p_chain: PCHAIN[list].append(p_chain)] *)
Definition append_process (chain : list json) (p_chain : json) : list json :=
  if truthy p_chain then (chain ++ [p_chain])%list else chain.

Fixpoint build_chain (chain : list json) (commands : list (list string))
  : result (list json) :=
  match commands with
  | [] => Ok chain
  | command :: rest =>
      rbind (create_actinia_process command)
            (fun p_chain => build_chain (append_process chain p_chain) rest)
  end.

(** ** Submission *)

Definition fmt_location (g : globals) : string :=
  match LOCATION g with
  | Some l => l
  | None => "None"
  end.

(** [if mapset:] holds for a string that is not empty; [None], [False] and
    the empty string take the other branch. *)
Definition submit_url (g : globals) (mapset : option string) : string :=
  match mapset with
  | Some (String c m) =>
      ACTINIA_URL g ++ "/api/" ++ ACTINIA_VERSION g ++ "/locations/"
      ++ fmt_location g ++ "/mapsets/" ++ String c m ++ "/processing_async"
  | _ =>
      ACTINIA_URL g ++ "/api/" ++ ACTINIA_VERSION g ++ "/locations/"
      ++ fmt_location g ++ "/processing_async_export"
  end.

(** The value of [msg] when the POST is answered by a status code other
    than 200 and 201: the [try] block with its [except Exception]. *)
Definition post_error_msg (body : string) : string :=
  match loads body with
  | None => body
  | Some data =>
      match key_in "message" data with
      | Raise _ => body
      | Ok false => EmptyString
      | Ok true =>
          match getitem data "message" with
          | Raise _ => body
          | Ok m => ": " ++ py_str m
          end
      end
  end.

(** [grass.fatal(_(msg))]: the message is shown and the process exits.  The
    text is built at run time, so the catalogue lookup of [_] gives it back
    unchanged. *)
Definition fatal {A} (msg : string) : io A := raise (SystemExit msg).

Definition post_error_text (url body : string) : string :=
  "ERROR posting to url '" ++ url ++ "'" ++ post_error_msg body.

Definition accepted (status : Z) : bool :=
  Z.eqb status 200 || Z.eqb status 201.

(** From the POST to the status URL of the job. *)
Definition submit (g : globals) (chain : list json) (mapset : option string)
                  (req : response) : io json :=
  let url := submit_url g mapset in
  emit (Print [AStr url]) ;;
  emit (Print [AVal (PCHAIN_of chain)]) ;;
  emit (Print [AStr (ACTINIA_USER g)]) ;;
  emit (Post url (PCHAIN_of chain)) ;;
  (if accepted (status_code req) then ret tt
   else fatal (post_error_text url (text req))) ;;
  match loads (text req) with
  | None => fatal (text req)
  | Some data =>
      status <- lift (getitem data "status") ;;
      emit (Print [AStr "Resource status"; AVal status]) ;;
      urls <- lift (getitem data "urls") ;;
      poll_url <- lift (getitem urls "status") ;;
      emit (Print [AStr "Polling:"; AVal poll_url]) ;;
      ret poll_url
  end.

(** ** The polling loop *)

Definition is_terminal (status : json) : bool :=
  is_str status "finished" || is_str status "error"
  || is_str status "terminated".

(** What the loop leaves behind when it breaks: the last response, its
    parsed body and its status. *)
Record polled : Type := {
  last_response : response;
  data : json;
  final_status : json
}.

(** The body of [while True] for one response [r] of the server: [None] is
    [time.sleep(1)] followed by the next iteration, [Some] is [break]. *)
Definition poll_step (r : response) : io (option polled) :=
  match loads (text r) with
  | None => raise JSONDecodeError
  | Some d =>
      status <- lift (getitem d "status") ;;
      emit (Print [AStr "Resource poll status:"; AVal status]) ;;
      message <- lift (getitem d "message") ;;
      emit (Print [AVal message]) ;;
      if is_terminal status
      then ret (Some {| last_response := r; data := d; final_status := status |})
      else (emit (Sleep 1) ;; ret None)
  end.

(** The loop against a server that answers the successive GETs by the
    responses of [script].  When the script ends before a terminal status
    the run is still polling. *)
Fixpoint poll_loop (poll_url : string) (script : list response) : io polled :=
  match script with
  | [] => ([], None)
  | r :: rest =>
      emit (Get poll_url) ;;
      o <- poll_step r ;;
      match o with
      | Some p => ret p
      | None => poll_loop poll_url rest
      end
  end.

(** [requests.get] needs a string for its URL. *)
Definition poll (poll_url : json) (script : list response) : io polled :=
  match poll_url with
  | JString u => poll_loop u script
  | _ => raise RequestException
  end.

(** ** The result reporter *)

Definition report_entry (entry : json) : io unit :=
  out <- lift (getitem entry "stdout") ;;
  (if truthy out then emit (Print [AVal out]) else ret tt) ;;
  err <- lift (getitem entry "stderr") ;;
  first <- lift (getitem0 err) ;;
  if truthy first then emit (PPrint err) else ret tt.

Definition rule : string :=
  "--------------------------------------------------------------------------".

Definition report (p : polled) : io unit :=
  emit (Print [AStr rule]) ;;
  if Z.eqb (status_code (last_response p)) 200 then
    if is_str (final_status p) "terminated" then
      emit (Print [AStr (text (last_response p))])
    else
      log <- lift (getitem (data p) "process_log") ;;
      entries <- lift (iter log) ;;
      for_each entries report_entry ;;
      urls <- lift (getitem (data p) "urls") ;;
      emit (PPrint urls)
  else emit (Print [AStr (text (last_response p))]).

(** ** [send_poll_commands] *)

Definition send_poll_commands (g : globals) (commands : list (list string))
    (mapset : option string) (req : response) (script : list response)
  : io unit :=
  chain <- lift (build_chain (PCHAIN_list g) commands) ;;
  if DRY_RUN g then emit (Print [AStr (dumps (PCHAIN_of chain))])
  else
    poll_url <- submit g chain mapset req ;;
    p <- poll poll_url script ;;
    report p.

End Client.

(** ** Vocabulary of the specification *)

Fixpoint count_quotes (s : string) : nat :=
  match s with
  | EmptyString => 0
  | String c r => (if is_quote c then 1 else 0) + count_quotes r
  end.

(** A command line with balanced quotes: its quote characters pair up. *)
Definition balanced (s : string) : bool := Nat.even (count_quotes s).

(** The number of unquoted separators of a text: those followed by an even
    number of quote characters. *)
Fixpoint unquoted_count (sep : ascii) (s : string) : nat :=
  match s with
  | EmptyString => 0
  | String c r =>
      (if Ascii.eqb c sep && balanced r then 1 else 0) + unquoted_count sep r
  end.

(** The text between a pair of quotes neither starts nor ends with a quote
    character. *)
Definition plain_ends (inner : string) : bool :=
  match inner with
  | EmptyString => true
  | String c _ =>
      negb (is_quote c) &&
      match last_char inner with
      | Some l => negb (is_quote l)
      | None => true
      end
  end.

(** One layer of the quote character [q] taken from each end of a value, as
    the specification words the normalisation of a quoted option value. *)
Definition strip_one_layer (q : ascii) (val : string) : string :=
  match val with
  | EmptyString => EmptyString
  | String c r =>
      let r' := if Ascii.eqb c q then r else val in
      match last_char r' with
      | Some l =>
          if Ascii.eqb l q
          then substring 0 (String.length r' - 1) r'
          else r'
      | None => r'
      end
  end.

(** A token that the tokenizer gives back as it is when it stands in a
    line of its own kind: its quotes pair up, none of its spaces is
    unquoted, and the loop body leaves it unchanged. *)
Definition stable (t : string) : bool :=
  balanced t && Nat.eqb (unquoted_count SP t) 0 &&
  match normalize_token t with
  | Ok t' => String.eqb t' t
  | Raise _ => false
  end.

(** The first and the last character of a value are identical quote
    characters. *)
Definition wrapped (val : string) : bool :=
  match val, last_char val with
  | String c _, Some l => Ascii.eqb c l && is_quote c
  | _, _ => false
  end.

(** A piece of a command line that comes back from a second tokenizing as
    the first one left it.  It is a piece without quote characters or
    without [=]; or an option [par=val] cut at its single unquoted [=],
    with a value that is not empty and either is not wrapped in quote
    characters, or, with its leading and trailing quote characters taken
    away, has quotes that pair up, no unquoted space and, when a quote
    character is left in the piece, no unquoted [=], some text, and no
    wrapping of its own. *)
Definition tidy (p : string) : Prop :=
  has_quote p = false \/ contains_char EQ p = false
  \/ exists par val,
       p = par ++ String EQ val
       /\ unquoted_count EQ p = 1 /\ balanced val = true
       /\ val <> EmptyString
       /\ (wrapped val = false
           \/ (balanced (strip SQ (strip DQ val)) = true
               /\ unquoted_count SP (strip SQ (strip DQ val)) = 0
               /\ (has_quote (par ++ strip SQ (strip DQ val)) = false
                   \/ (unquoted_count EQ (strip SQ (strip DQ val)) = 0
                       /\ strip SQ (strip DQ val) <> EmptyString
                       /\ wrapped (strip SQ (strip DQ val)) = false)))).

(** [sub] occurs in [s]. *)
Definition occurs_in (sub s : string) : Prop :=
  exists pre post, s = pre ++ sub ++ post.

Section Snapshots.
Context `{Runtime}.

(** The status of a poll response whose body parses as a Job Status
    Snapshot, that is, with its [status] and [message] fields. *)
Definition status_of (r : response) : option json :=
  match loads (text r) with
  | Some d =>
      match getitem d "status", getitem d "message" with
      | Ok s, Ok _ => Some s
      | _, _ => None
      end
  | None => None
  end.

Definition pending (r : response) : bool :=
  match status_of r with
  | Some s => negb (is_terminal s)
  | None => false
  end.

Definition terminal (r : response) : bool :=
  match status_of r with
  | Some s => is_terminal s
  | None => false
  end.

End Snapshots.

(** The [stdout] and [stderr] of a step of the process log, with the first
    element of [stderr]. *)
Definition step_fields (entry : json) : option (json * json * json) :=
  match getitem entry "stdout", getitem entry "stderr" with
  | Ok out, Ok err =>
      match getitem0 err with
      | Ok first => Some (out, err, first)
      | Raise _ => None
      end
  | _, _ => None
  end.

Definition well_formed_step (entry : json) : bool :=
  match step_fields entry with Some _ => true | None => false end.

(** What the report of one step shows: its output when there is some, its
    diagnostics when their first element is not empty. *)
Definition step_output (entry : json) : list event :=
  match step_fields entry with
  | Some (out, err, first) =>
      ((if truthy out then [Print [AVal out]] else [])
       ++ (if truthy first then [PPrint err] else []))%list
  | None => []
  end.

(** ** Inputs used in the examples *)

Definition mapcalc_line : string :=
  "r.mapcalc expression=" ++ chr DQ ++ "a = b + 1" ++ chr DQ.

Definition region_line : string := "g.region raster=elevation -p".

(** [x=] followed by [a] in two layers of double quotes. *)
Definition layered_value : string :=
  String DQ (String DQ ("a" ++ String DQ (chr DQ))).
Definition layered_token : string := "x=" ++ layered_value.

(** [x=] followed by [a] in single quotes inside double quotes. *)
Definition mixed_value : string :=
  String DQ (String SQ ("a" ++ String SQ (chr DQ))).
Definition mixed_token : string := "x=" ++ mixed_value.

(** A quoted key with nothing after its [=]. *)
Definition empty_value_token : string := String DQ ("x" ++ String DQ "=").

(** A key that holds a quoted [=], with a value in single quotes. *)
Definition quoted_key : string := String DQ ("a=b" ++ chr DQ).
Definition quoted_key_token : string :=
  quoted_key ++ String EQ (String SQ ("c d" ++ chr SQ)).

(** [x=] followed by [a] in double quotes inside single quotes. *)
Definition nested_value : string :=
  String SQ (String DQ ("a" ++ String DQ (chr SQ))).
Definition nested_token : string := "x=" ++ nested_value.

(** A line with a quoted space inside a value that is not wrapped, and a
    wrapped value without spaces. *)
Definition text_value : string := "a" ++ String SQ ("b c" ++ String SQ "d").
Definition tidy_line : string :=
  "d.text text=" ++ text_value ++ " map=" ++ String DQ ("elev" ++ chr DQ).

(** JSON texts, written with [q] for a quoted word. *)
Definition q (s : string) : string := chr DQ ++ s ++ chr DQ.

Definition snapshot_text (status : string) : string :=
  "{" ++ q "status" ++ ": " ++ q status ++ ", " ++ q "message" ++ ": "
  ++ q "processing" ++ "}".

Definition snapshot (status : string) : json :=
  JObject [("status", JString status); ("message", JString "processing")].

Definition answer (status : string) : response :=
  {| status_code := 200; text := snapshot_text status |}.

Definition bad_request_text : string :=
  "{" ++ q "message" ++ ": " ++ q "bad request" ++ "}".

Definition region_text : string :=
  "{" ++ q "id" ++ ": " ++ q "g.region" ++ ", " ++ q "module" ++ ": "
  ++ q "g.region" ++ "}".

Definition region_process : json :=
  JObject [("id", JString "g.region"); ("module", JString "g.region")].

Definition region_command : list string := ["g.region"; "raster=elevation"; "-p"].
Definition failing_command : list string := ["g.nosuch"; "map=x"].

Definition parse_table : list (string * json) :=
  [ (snapshot_text "running", snapshot "running");
    (snapshot_text "finished", snapshot "finished");
    (snapshot_text "error", snapshot "error");
    (bad_request_text, JObject [("message", JString "bad request")]);
    ("{}", JObject []);
    (region_text, region_process) ].

Definition list_eqb (a b : list string) : bool :=
  if list_eq_dec string_dec a b then true else false.

(** A stub of the world: a parser that knows the texts above, a tool that
    compiles [g.region] and fails on [g.nosuch], bytes that decode to
    themselves. *)
Definition stub_runtime : Runtime := {|
  loads := fun body => assoc body parse_table;
  dumps := fun _ => "{...}";
  popen_communicate := fun command =>
    if list_eqb command (with_json_flag region_command)
    then Some (region_text, EmptyString, 0%Z)
    else if list_eqb command (with_json_flag failing_command)
    then Some ("no output", "ERROR: g.nosuch not found", 1%Z)
    else None;
  decode := fun bytes => Some bytes;
  str_of_list := fun l =>
    "[" ++ String.concat ", " (map (fun s => "'" ++ s ++ "'") l) ++ "]";
  repr := fun _ => "..."
|}.

Definition stub_globals : globals := {|
  ACTINIA_URL := "https://actinia.mundialis.de";
  ACTINIA_VERSION := "v3";
  ACTINIA_USER := "demouser";
  LOCATION := Some "nc_spm_08";
  DRY_RUN := false;
  PCHAIN_list := []
|}.

Definition log_step (out : string) (err : list string) : json :=
  JObject [("stdout", JString out); ("stderr", JArray (map JString err))].

Definition result_urls : json :=
  JObject [("resources", JArray []);
           ("status", JString "https://actinia.mundialis.de/status")].


(** A job whose second step has no diagnostics at all. *)
Definition bare_stderr_job : polled := {|
  last_response := answer "error";
  data := JObject [("status", JString "error");
                   ("message", JString "processing");
                   ("process_log",
                    JArray [log_step "projection: 99" ["WARNING: region"];
                            log_step "half done" [];
                            log_step "never shown" ["x"]]);
                   ("urls", result_urls)];
  final_status := JString "error"
|}.

(** A byte that no UTF-8 text holds. *)
Definition INVALID : ascii := "255"%char.

(** A stub of the world in which the tool fails on [g.nosuch] and leaves
    bytes on its standard output that are not UTF-8. *)
Definition garbled_runtime : Runtime := {|
  loads := fun body => assoc body parse_table;
  dumps := fun _ => "{...}";
  popen_communicate := fun command =>
    if list_eqb command (with_json_flag failing_command)
    then Some (chr INVALID, "ERROR: g.nosuch not found", 1%Z)
    else None;
  decode := fun bytes =>
    if contains_char INVALID bytes then None else Some bytes;
  str_of_list := fun l =>
    "[" ++ String.concat ", " (map (fun s => "'" ++ s ++ "'") l) ++ "]";
  repr := fun _ => "..."
|}.

(** The job of [bare_stderr_job] when its last poll is answered with the
    HTTP status 400. *)
Definition bare_stderr_400 : polled := {|
  last_response := {| status_code := 400; text := snapshot_text "error" |};
  data := data bare_stderr_job;
  final_status := JString "error"
|}.

Definition rejected_empty : response := {| status_code := 400; text := "{}" |}.

(** * Further functions of the script *)

(** ** [is_grass_command] *)

(** [s.split(sep)] for a one-character separator: the text is cut at every
    [sep], and there is always at least one piece. *)
Fixpoint split_on (sep : ascii) (s : string) : list string :=
  match s with
  | EmptyString => [EmptyString]
  | String c r =>
      if Ascii.eqb c sep then EmptyString :: split_on sep r
      else match split_on sep r with
           | t :: ts => String c t :: ts
           | [] => [chr c]
           end
  end.

Definition DOT : ascii := "."%char.

Definition grass_families : list string := ["r"; "v"; "i"; "t"; "g"; "r3"].

(** [grass_command.split(DOT)[0] in grass_families]; the list that [split]
    gives is never empty, so the index does not fail. *)
Definition is_grass_command (grass_command : string) : bool :=
  mem (nth 0 (split_on DOT grass_command) EmptyString) grass_families.

(** ** [execute_script] *)

(** [c.isspace()] for a character below 256. *)
Definition is_space (c : ascii) : bool :=
  let n := nat_of_ascii c in
  (Nat.leb 9 n && Nat.leb n 13) || (Nat.leb 28 n && Nat.leb n 32)
  || Nat.eqb n 133 || Nat.eqb n 160.

Fixpoint lstrip_ws (s : string) : string :=
  match s with
  | EmptyString => EmptyString
  | String x r => if is_space x then lstrip_ws r else s
  end.

Fixpoint rstrip_ws (s : string) : string :=
  match s with
  | EmptyString => EmptyString
  | String x r =>
      match rstrip_ws r with
      | EmptyString => if is_space x then EmptyString else chr x
      | r' => String x r'
      end
  end.

(** [line.strip()] *)
Definition strip_ws (s : string) : string := rstrip_ws (lstrip_ws s).

Definition HASH : ascii := "#"%char.

(** [line and HASH not in line[:1]] on a stripped line: the line is not
    empty and does not start with the comment character. *)
Definition is_command_line (line : string) : bool :=
  match line with
  | EmptyString => false
  | String c _ => negb (Ascii.eqb c HASH)
  end.

(** The loop of [execute_script] over the lines that [readlines] gave: the
    token lists of the lines that are neither blank nor comments, in order;
    a fault of the tokenizer ends the loop. *)
Fixpoint script_commands (lines : list string) : result (list (list string)) :=
  match lines with
  | [] => Ok []
  | line :: rest =>
      let line := strip_ws line in
      if is_command_line line then
        rbind (split_grass_command line)
              (fun tokens =>
                 rbind (script_commands rest)
                       (fun commands => Ok (tokens :: commands)))
      else script_commands rest
  end.

Section Script.
Context `{Runtime}.

(** [execute_script] on the lines of the script file. *)
Definition execute_script (g : globals) (lines : list string)
    (mapset : option string) (req : response) (script : list response)
  : io unit :=
  bind (lift (script_commands lines))
       (fun commands => send_poll_commands g commands mapset req script).

End Script.

(** ** Counting the traffic of a run *)

Definition is_post (e : event) : bool :=
  match e with Post _ _ => true | _ => false end.

Definition is_sleep (e : event) : bool :=
  match e with Sleep _ => true | _ => false end.

(** An event that reaches the server. *)
Definition is_request (e : event) : bool := is_post e || is_get e.

(** ** Further inputs for the examples *)

Definition status_url : string := "https://actinia.mundialis.de/status/1".

Definition accepted_text : string :=
  "{" ++ q "status" ++ ": " ++ q "accepted" ++ ", " ++ q "urls" ++ ": {"
  ++ q "status" ++ ": " ++ q status_url ++ "}}".

Definition accepted_payload : json :=
  JObject [("status", JString "accepted");
           ("urls", JObject [("status", JString status_url)])].

Definition status_only_text : string :=
  "{" ++ q "status" ++ ": " ++ q "finished" ++ "}".

Definition more_texts : list (string * json) :=
  [ (accepted_text, accepted_payload);
    (status_only_text, JObject [("status", JString "finished")]) ].

(** The stub with a parser that also knows an acceptance payload and a
    snapshot without a message. *)
Definition stub_service : Runtime := {|
  loads := fun body =>
    match assoc body more_texts with
    | Some v => Some v
    | None => loads (Runtime := stub_runtime) body
    end;
  dumps := dumps (Runtime := stub_runtime);
  popen_communicate := popen_communicate (Runtime := stub_runtime);
  decode := decode (Runtime := stub_runtime);
  str_of_list := str_of_list (Runtime := stub_runtime);
  repr := repr (Runtime := stub_runtime)
|}.

Definition dry_globals : globals := {|
  ACTINIA_URL := "https://actinia.mundialis.de";
  ACTINIA_VERSION := "v3";
  ACTINIA_USER := "demouser";
  LOCATION := Some "nc_spm_08";
  DRY_RUN := true;
  PCHAIN_list := []
|}.

Definition html_answer : response :=
  {| status_code := 502; text := "<html>Bad Gateway</html>" |}.

(** ** [main]: the choice of the action *)

(** The flags and options that the parser of GRASS hands to [main], and
    the length of [sys.argv].  A flag is [True] or [False]; an option that
    was not given is the empty string. *)
Record cli : Type := {
  flag_a : bool;  (* version *)
  flag_d : bool;  (* dry_run *)
  flag_l : bool;  (* list_locations *)
  flag_m : bool;  (* list_mapsets *)
  flag_r : bool;  (* list_raster *)
  flag_v : bool;  (* list_vector *)
  flag_s : bool;  (* list_strds *)
  opt_grass_command : string;
  opt_script : string;
  opt_list_jobs : string;
  opt_info_job : string;
  opt_location : string;
  opt_mapset : string;
  opt_create_mapset : string;
  opt_delete_mapset : string;
  opt_create_location : string;
  opt_delete_location : string;
  opt_render_raster : string;
  opt_render_vector : string;
  opt_render_strds : string;
  opt_kill_job : string;
  argc : nat
}.

(** The values that [main] passes for a mapset: [False], the [True] of a
    flag, or a name. *)
Inductive pyarg : Type :=
| PFalse
| PTrue
| PStr (s : string).

(** The call that [main] ends with. *)
Inductive call : Type :=
| call_actinia_version
| call_create_persistent_location (location epsg_code : string)
| call_delete_persistent_location (location : string)
| call_execute_script (script : string) (mapset : pyarg)
| call_list_user_mapsets (location : string)
| call_list_maps_of_mapsets (mapset : pyarg) (map_type : string)
| call_show_rendered_map (map_name map_type : string)
| call_create_persistent_mapset (mapset : string)
| call_delete_persistent_mapset (mapset : string)
| call_send_poll_commands (commands : list (list string)) (mapset : pyarg)
| call_list_user_jobs (type_ : string)
| call_show_user_job_info (resource_id : string)
| call_kill_user_job (resource_id : string)
| call_list_user_locations
| no_call.

(** [if s:] for a string. *)
Definition given (s : string) : bool :=
  match s with
  | EmptyString => false
  | String _ _ => true
  end.

(** [s.split()]: the words between runs of white space. *)
Fixpoint split_ws (s : string) : list string :=
  match s with
  | EmptyString => []
  | String c r =>
      if is_space c then split_ws r
      else match r with
           | EmptyString => [chr c]
           | String d _ =>
               if is_space d then chr c :: split_ws r
               else match split_ws r with
                    | t :: ts => String c t :: ts
                    | [] => [chr c]
                    end
           end
  end.

(** [list(s)]: the characters of a string, each a string of its own. *)
Fixpoint chars_of (s : string) : list string :=
  match s with
  | EmptyString => []
  | String c r => chr c :: chars_of r
  end.

(** The global [DRY_RUN] after [main] has looked at the flag. *)
Definition main_DRY_RUN (c : cli) (before : bool) : bool :=
  if flag_d c then true else before.

(** [main] after [set_credentials], [setup_location] and the setting of
    [DRY_RUN]: the chain of [if] and [elif] down to the one call it
    makes, or the fault it raises before the call. *)
Definition main (c : cli) : result call :=
  let mapset := if given (opt_mapset c) then PStr (opt_mapset c) else PFalse in
  let has_mapset := given (opt_mapset c) in
  if flag_a c then Ok call_actinia_version
  else if given (opt_create_location c) then
    match split_ws (opt_create_location c) with
    | location :: epsg_code :: _ =>
        Ok (call_create_persistent_location location epsg_code)
    | _ => Raise IndexError
    end
  else if given (opt_delete_location c) then
    Ok (call_delete_persistent_location (opt_delete_location c))
  else if given (opt_location c) then
    if given (opt_script c) then Ok (call_execute_script (opt_script c) mapset)
    else if flag_m c then Ok (call_list_user_mapsets (opt_location c))
    else if flag_r c && has_mapset then
      Ok (call_list_maps_of_mapsets mapset "raster_layers")
    else if flag_v c && has_mapset then
      Ok (call_list_maps_of_mapsets mapset "vector_layers")
    else if flag_s c && has_mapset then
      Ok (call_list_maps_of_mapsets mapset "strds")
    else if given (opt_render_raster c) then
      Ok (call_show_rendered_map (opt_render_raster c) "raster_layers")
    else if given (opt_render_vector c) then
      Ok (call_show_rendered_map (opt_render_vector c) "vector_layers")
    else if given (opt_render_strds c) then
      Ok (call_show_rendered_map (opt_render_strds c) "strds")
    else if given (opt_create_mapset c) then
      Ok (call_create_persistent_mapset (opt_create_mapset c))
    else if given (opt_delete_mapset c) then
      Ok (call_delete_persistent_mapset (opt_delete_mapset c))
    else if is_grass_command (opt_grass_command c) then
      rbind (split_grass_command (opt_grass_command c))
            (fun tokens => Ok (call_send_poll_commands [tokens] mapset))
    else Ok no_call
  else if given (opt_list_jobs c) then Ok (call_list_user_jobs (opt_list_jobs c))
  else if given (opt_info_job c) then Ok (call_show_user_job_info (opt_info_job c))
  else if given (opt_kill_job c) then Ok (call_kill_user_job (opt_kill_job c))
  else if flag_l c then Ok call_list_user_locations
  else if flag_r c then Ok (call_list_maps_of_mapsets PTrue "raster_layers")
  else if flag_v c then Ok (call_list_maps_of_mapsets PTrue "vector_layers")
  else if flag_s c then Ok (call_list_maps_of_mapsets PTrue "strds")
  else if given (opt_render_raster c) then
    Ok (call_show_rendered_map (opt_render_raster c) "raster_layers")
  else if given (opt_render_vector c) then
    Ok (call_show_rendered_map (opt_render_vector c) "vector_layers")
  else if given (opt_render_strds c) then
    Ok (call_show_rendered_map (opt_render_strds c) "strds")
  else if flag_m c then Ok (call_list_user_mapsets (opt_location c))
  else if given (opt_create_mapset c) then
    Ok (call_create_persistent_mapset (opt_create_mapset c))
  else if given (opt_delete_mapset c) then
    Ok (call_delete_persistent_mapset (opt_delete_mapset c))
  else if given (opt_script c) then Ok (call_execute_script (opt_script c) mapset)
  else if Nat.ltb 1 (argc c) then
    if is_grass_command (opt_grass_command c) then
      Ok (call_send_poll_commands [chars_of (opt_grass_command c)] mapset)
    else Ok no_call
  else Ok call_actinia_version.

(** ** The listings *)

Section Listings.
Context `{Runtime}.

(** [str.lower], which the script calls on the job type. *)
Variable lower : string -> string.

Definition jobs_url (g : globals) : string :=
  ACTINIA_URL g ++ "/api/" ++ ACTINIA_VERSION g ++ "/resources/"
  ++ ACTINIA_USER g.

(** [print(entry[resource_id], entry[status], entry[datetime])] *)
Definition print_job (entry : json) : io unit :=
  bind (lift (getitem entry "resource_id")) (fun id =>
  bind (lift (getitem entry "status")) (fun status =>
  bind (lift (getitem entry "datetime")) (fun datetime =>
  emit (Print [AVal id; AVal status; AVal datetime])))).

(** [list_user_jobs], [r] being the answer to its GET.  The event records
    the URL of the request. *)
Definition list_user_jobs (g : globals) (type_ : string) (r : response)
  : io unit :=
  bind (emit (Get (jobs_url g))) (fun _ =>
  match loads (text r) with
  | None => raise JSONDecodeError
  | Some data =>
      bind (lift (getitem data "resource_list")) (fun resource_list =>
      bind (lift (iter resource_list)) (fun entries =>
      for_each entries (fun entry =>
        if String.eqb (lower type_) "all" then print_job entry
        else
          bind (lift (getitem entry "status")) (fun status =>
          if is_str status (lower type_) then print_job entry
          else ret tt))))
  end).

(** The common end of [list_user_locations], [list_user_mapsets] and
    [list_maps_of_mapsets]: the field [key] of the answer when the
    membership test finds it, the whole answer otherwise. *)
Definition pprint_field_or_all (key : string) (r : response) : io unit :=
  match loads (text r) with
  | None => raise JSONDecodeError
  | Some data =>
      bind (lift (key_in key data)) (fun found =>
      if found then
        bind (lift (getitem data key)) (fun field => emit (PPrint field))
      else emit (PPrint data))
  end.

Definition list_user_locations (g : globals) (r : response) : io unit :=
  bind (emit (Get (ACTINIA_URL g ++ "/api/" ++ ACTINIA_VERSION g
                   ++ "/locations")))
       (fun _ => pprint_field_or_all "locations" r).

Definition list_user_mapsets (g : globals) (location : string) (r : response)
  : io unit :=
  bind (emit (Get (ACTINIA_URL g ++ "/api/" ++ ACTINIA_VERSION g
                   ++ "/locations/" ++ location ++ "/mapsets")))
       (fun _ => pprint_field_or_all "process_results" r).

Definition list_maps_of_mapsets (g : globals) (mapset map_type : string)
    (r : response) : io unit :=
  bind (emit (Get (ACTINIA_URL g ++ "/api/" ++ ACTINIA_VERSION g
                   ++ "/locations/" ++ fmt_location g ++ "/mapsets/"
                   ++ mapset ++ "/" ++ map_type)))
       (fun _ => pprint_field_or_all "process_results" r).

End Listings.

(** A job of the resource list with the three fields that are printed. *)
Definition job_fields (entry : json) : option (json * json * json) :=
  match getitem entry "resource_id", getitem entry "status",
        getitem entry "datetime" with
  | Ok id, Ok status, Ok datetime => Some (id, status, datetime)
  | _, _, _ => None
  end.

Definition job_line (entry : json) : list event :=
  match job_fields entry with
  | Some (id, status, datetime) => [Print [AVal id; AVal status; AVal datetime]]
  | None => []
  end.

(** The jobs that a listing of type [wanted] (already in lower case)
    shows. *)
Definition job_selected (wanted : string) (entry : json) : bool :=
  String.eqb wanted "all"
  || match getitem entry "status" with
     | Ok status => is_str status wanted
     | Raise _ => false
     end.

(** ** A script and options for the examples *)

Definition script_lines : list string :=
  [ "# Example script for actinia shell interface" ++ NL;
    "g.region raster=elevation -p" ++ NL;
    "   " ++ NL;
    "r.univar map=elevation" ++ NL;
    "# r.mapcalc expression=slope_elev=100" ++ NL;
    "r.info elevation" ++ NL ].

(** A line whose quoted token holds its only [=]. *)
Definition faulty_line : string :=
  "r.mapcalc " ++ String DQ ("x=1" ++ chr DQ) ++ NL.

Definition no_options : cli := {|
  flag_a := false; flag_d := false; flag_l := false; flag_m := false;
  flag_r := false; flag_v := false; flag_s := false;
  opt_grass_command := EmptyString; opt_script := EmptyString;
  opt_list_jobs := EmptyString; opt_info_job := EmptyString;
  opt_location := EmptyString; opt_mapset := EmptyString;
  opt_create_mapset := EmptyString; opt_delete_mapset := EmptyString;
  opt_create_location := EmptyString; opt_delete_location := EmptyString;
  opt_render_raster := EmptyString; opt_render_vector := EmptyString;
  opt_render_strds := EmptyString; opt_kill_job := EmptyString;
  argc := 1
|}.

Definition with_command (location : string) : cli := {|
  flag_a := false; flag_d := false; flag_l := false; flag_m := false;
  flag_r := false; flag_v := false; flag_s := false;
  opt_grass_command := "g.list raster"; opt_script := EmptyString;
  opt_list_jobs := EmptyString; opt_info_job := EmptyString;
  opt_location := location; opt_mapset := EmptyString;
  opt_create_mapset := EmptyString; opt_delete_mapset := EmptyString;
  opt_create_location := EmptyString; opt_delete_location := EmptyString;
  opt_render_raster := EmptyString; opt_render_vector := EmptyString;
  opt_render_strds := EmptyString; opt_kill_job := EmptyString;
  argc := 2
|}.

Definition with_raster_flag (location mapset jobs : string) : cli := {|
  flag_a := false; flag_d := false; flag_l := false; flag_m := false;
  flag_r := true; flag_v := false; flag_s := false;
  opt_grass_command := EmptyString; opt_script := EmptyString;
  opt_list_jobs := jobs; opt_info_job := EmptyString;
  opt_location := location; opt_mapset := mapset;
  opt_create_mapset := EmptyString; opt_delete_mapset := EmptyString;
  opt_create_location := EmptyString; opt_delete_location := EmptyString;
  opt_render_raster := EmptyString; opt_render_vector := EmptyString;
  opt_render_strds := EmptyString; opt_kill_job := EmptyString;
  argc := 3
|}.

Definition with_create_location (words : string) : cli := {|
  flag_a := false; flag_d := false; flag_l := false; flag_m := false;
  flag_r := false; flag_v := false; flag_s := false;
  opt_grass_command := EmptyString; opt_script := EmptyString;
  opt_list_jobs := EmptyString; opt_info_job := EmptyString;
  opt_location := EmptyString; opt_mapset := EmptyString;
  opt_create_mapset := EmptyString; opt_delete_mapset := EmptyString;
  opt_create_location := words; opt_delete_location := EmptyString;
  opt_render_raster := EmptyString; opt_render_vector := EmptyString;
  opt_render_strds := EmptyString; opt_kill_job := EmptyString;
  argc := 2
|}.

Definition job (id status : string) : json :=
  JObject [("resource_id", JString id); ("status", JString status);
           ("datetime", JString "2021-05-01 10:00:00")].

Definition jobs_text : string := "[jobs]".
Definition locations_text : string := "[locations]".
Definition word_text : string := "[word]".

Definition jobs_list : list json :=
  [job "resource_id-1" "finished"; job "resource_id-2" "running";
   job "resource_id-3" "finished"].

(** A parser for the listings: a resource list, a list of locations as the
    service gives it, and a body that is one JSON string. *)
Definition stub_listing : Runtime := {|
  loads := fun body =>
    if String.eqb body jobs_text
    then Some (JObject [("resource_list", JArray jobs_list)])
    else if String.eqb body locations_text
    then Some (JObject [("locations", JArray [JString "nc_spm_08"]);
                        ("status", JString "success")])
    else if String.eqb body word_text
    then Some (JString "no locations here")
    else None;
  dumps := dumps (Runtime := stub_runtime);
  popen_communicate := popen_communicate (Runtime := stub_runtime);
  decode := decode (Runtime := stub_runtime);
  str_of_list := str_of_list (Runtime := stub_runtime);
  repr := repr (Runtime := stub_runtime)
|}.

(** Lower case for the letters of ASCII. *)
Fixpoint lower_ascii (s : string) : string :=
  match s with
  | EmptyString => EmptyString
  | String c r =>
      let n := nat_of_ascii c in
      String (if Nat.leb 65 n && Nat.leb n 90 then ascii_of_nat (n + 32) else c)
             (lower_ascii r)
  end.

(** A text with a white space character in it. *)
Fixpoint has_space (s : string) : bool :=
  match s with
  | EmptyString => false
  | String c r => is_space c || has_space r
  end.

(** * Properties *)

Lemma bind_lift_ok {A B} (a : A) (k : A -> io B) : bind (lift (Ok a)) k = k a.
Proof. unfold bind, lift. now destruct (k a). Qed.

Lemma trace_bind {A B} (m : io A) (k : A -> io B) :
  trace (bind m k)
  = (trace m ++ match outcome m with
                | Some (Ok a) => trace (k a)
                | _ => []
                end)%list.
Proof.
  destruct m as [t [[a | e] |]]; unfold bind, trace, outcome; simpl.
  - now destruct (k a).
  - now rewrite app_nil_r.
  - now rewrite app_nil_r.
Qed.

Lemma outcome_bind {A B} (m : io A) (k : A -> io B) :
  outcome (bind m k)
  = match outcome m with
    | Some (Ok a) => outcome (k a)
    | Some (Raise e) => Some (Raise e)
    | None => None
    end.
Proof.
  destruct m as [t [[a | e] |]]; unfold bind, outcome; simpl; auto.
  now destruct (k a).
Qed.

(** ** The lookahead and the split *)

Lemma ascii_eqb_false (a b : ascii) : a <> b -> Ascii.eqb a b = false.
Proof. intro Hne. apply Ascii.eqb_neq. exact Hne. Qed.

Lemma is_quote_cases (c : ascii) : is_quote c = true -> c = DQ \/ c = SQ.
Proof.
  unfold is_quote. intro Hq. apply orb_true_iff in Hq.
  destruct Hq as [Hq | Hq]; apply Ascii.eqb_eq in Hq; auto.
Qed.

Lemma has_quote_cons (c : ascii) (r : string) :
  has_quote (String c r) = is_quote c || has_quote r.
Proof.
  unfold has_quote, is_quote. simpl.
  destruct (Ascii.eqb c SQ), (Ascii.eqb c DQ),
    (contains_char SQ r), (contains_char DQ r); reflexivity.
Qed.

Lemma la_odd_negb (s : string) : la_odd s = negb (la_even s).
Proof.
  induction s as [| c r IH]; simpl; [reflexivity |].
  destruct (is_quote c).
  - rewrite IH. now rewrite negb_involutive.
  - exact IH.
Qed.

(** The lookahead matches exactly when the quote characters that follow
    pair up. *)
Lemma la_even_balanced (s : string) : la_even s = balanced s.
Proof.
  unfold balanced.
  induction s as [| c r IH]; [reflexivity |].
  cbn [la_even count_quotes]. destruct (is_quote c).
  - rewrite la_odd_negb, IH.
    change (1 + count_quotes r) with (S (count_quotes r)).
    now rewrite Nat.even_succ, <- Nat.negb_even.
  - exact IH.
Qed.

Lemma balanced_cons_plain (c : ascii) (r : string) :
  is_quote c = false -> balanced (String c r) = balanced r.
Proof. intro Hc. unfold balanced. cbn [count_quotes]. now rewrite Hc. Qed.

Lemma count_quotes_app (a b : string) :
  count_quotes (a ++ b) = count_quotes a + count_quotes b.
Proof.
  induction a as [| c r IH]; simpl; [reflexivity |]. rewrite IH. lia.
Qed.

Lemma balanced_app (a b : string) :
  balanced b = true -> balanced (a ++ b) = balanced a.
Proof.
  unfold balanced. intro Hb. rewrite count_quotes_app, Nat.even_add, Hb.
  now destruct (Nat.even (count_quotes a)).
Qed.

Lemma no_quote_balanced (s : string) : has_quote s = false -> balanced s = true.
Proof.
  induction s as [| c r IH]; [reflexivity |].
  rewrite has_quote_cons. intro Hq. apply orb_false_iff in Hq.
  destruct Hq as [Hc Hr]. rewrite balanced_cons_plain by exact Hc. auto.
Qed.

Lemma re_split_not_nil (sep : ascii) (s : string) : re_split sep s <> [].
Proof.
  destruct s as [| c r]; simpl; [discriminate |].
  destruct (Ascii.eqb c sep && la_even r); [discriminate |].
  destruct (re_split sep r); discriminate.
Qed.

(** The split has one piece more than the text has unquoted separators. *)
Lemma re_split_length (sep : ascii) (s : string) :
  length (re_split sep s) = S (unquoted_count sep s).
Proof.
  induction s as [| c r IH]; [reflexivity |].
  cbn [re_split unquoted_count]. rewrite la_even_balanced.
  destruct (Ascii.eqb c sep && balanced r).
  - simpl. now rewrite IH.
  - destruct (re_split sep r) eqn:E; simpl in *; [discriminate | exact IH].
Qed.

(** Joining the pieces with the separator gives the text back. *)
Lemma join_re_split (sep : ascii) (s : string) : join sep (re_split sep s) = s.
Proof.
  induction s as [| c r IH]; [reflexivity |].
  cbn [re_split]. destruct (Ascii.eqb c sep && la_even r) eqn:E.
  - apply andb_true_iff in E. destruct E as [Ec _].
    apply Ascii.eqb_eq in Ec. subst c.
    pose proof (re_split_not_nil sep r) as Hne.
    destruct (re_split sep r) as [| t ts]; [contradiction |].
    cbn [join]. cbn [join] in IH. simpl. now rewrite IH.
  - pose proof (re_split_not_nil sep r) as Hne.
    destruct (re_split sep r) as [| t ts]; [contradiction |].
    destruct ts as [| t' ts]; cbn [join] in *; simpl; now rewrite <- IH.
Qed.

Lemma re_split_whole (sep : ascii) (s : string) :
  unquoted_count sep s = 0 -> re_split sep s = [s].
Proof.
  induction s as [| c r IH]; [reflexivity |].
  cbn [re_split unquoted_count]. rewrite la_even_balanced.
  destruct (Ascii.eqb c sep && balanced r); [discriminate |].
  simpl. intro H0. now rewrite (IH H0).
Qed.

Lemma no_sep_unquoted_count (sep : ascii) (s : string) :
  contains_char sep s = false -> unquoted_count sep s = 0.
Proof.
  induction s as [| c r IH]; [reflexivity |].
  simpl. intro Hc. apply orb_false_iff in Hc. destruct Hc as [Hc Hr].
  rewrite Hc. simpl. auto.
Qed.

(** An unquoted separator followed by a balanced text cuts the line in two
    parts that are split independently. *)
Lemma re_split_app (sep : ascii) (a b : string) :
  is_quote sep = false -> balanced b = true ->
  re_split sep (a ++ String sep b) = (re_split sep a ++ re_split sep b)%list.
Proof.
  intros Hsep Hb.
  assert (Hsb : balanced (String sep b) = true)
    by now rewrite balanced_cons_plain.
  induction a as [| c r IH].
  - simpl. now rewrite Ascii.eqb_refl, la_even_balanced, Hb.
  - change ((String c r) ++ String sep b) with (String c (r ++ String sep b)).
    cbn [re_split]. rewrite !la_even_balanced, (balanced_app r _ Hsb), IH.
    destruct (Ascii.eqb c sep && balanced r); [reflexivity |].
    pose proof (re_split_not_nil sep r) as Hne.
    destruct (re_split sep r) as [| t ts]; [contradiction | reflexivity].
Qed.

Lemma map_result_fixed (f : string -> result string) (xs : list string) :
  Forall (fun x => f x = Ok x) xs -> map_result f xs = Ok xs.
Proof.
  induction 1 as [| x rest Hx _ IH]; [reflexivity |].
  simpl. rewrite Hx. simpl. now rewrite IH.
Qed.

Lemma map_result_raise {A B} (f : A -> result B) (xs : list A) (x : A) (e : exn) :
  In x xs -> f x = Raise e -> exists e', map_result f xs = Raise e'.
Proof.
  induction xs as [| y rest IH]; [contradiction |].
  intros [-> | Hin] Hx; simpl.
  - rewrite Hx. simpl. eauto.
  - destruct (f y); simpl; [| eauto].
    destruct (IH Hin Hx) as [e' ->]. simpl. eauto.
Qed.

Lemma map_result_ok {A B} (f : A -> result B) (xs : list A) (ys : list B) :
  map_result f xs = Ok ys -> Forall (fun x => exists y, f x = Ok y) xs.
Proof.
  revert ys. induction xs as [| x rest IH]; intros ys Hm; [constructor |].
  simpl in Hm. destruct (f x) eqn:Ex; simpl in Hm; [| discriminate].
  destruct (map_result f rest) eqn:Er; simpl in Hm; [| discriminate].
  constructor; eauto.
Qed.

(** ** Stripping *)

Lemma last_char_app_chr (s : string) (c : ascii) : last_char (s ++ chr c) = Some c.
Proof.
  induction s as [| x r IH]; [reflexivity |].
  simpl. rewrite IH. now destruct (r ++ chr c).
Qed.

Lemma last_char_cons (x : ascii) (r : string) :
  r <> EmptyString -> last_char (String x r) = last_char r.
Proof. destruct r; [contradiction | reflexivity]. Qed.

Lemma app_chr_not_empty (s : string) (c : ascii) : s ++ chr c <> EmptyString.
Proof. destruct s; discriminate. Qed.

Lemma rstrip_app_chr (c : ascii) (s : string) : rstrip c (s ++ chr c) = rstrip c s.
Proof.
  induction s as [| x r IH]; simpl.
  - now rewrite Ascii.eqb_refl.
  - now rewrite IH.
Qed.

Lemma rstrip_cons (c x : ascii) (r : string) :
  rstrip c (String x r) =
  match rstrip c r with
  | EmptyString => if Ascii.eqb x c then EmptyString else chr x
  | r' => String x r'
  end.
Proof. reflexivity. Qed.

Lemma rstrip_id (c : ascii) (s : string) :
  last_char s <> Some c -> rstrip c s = s.
Proof.
  induction s as [| x r IH]; [reflexivity |].
  destruct r as [| y r'].
  - simpl. intro Hl. rewrite ascii_eqb_false; [reflexivity | congruence].
  - intro Hl. rewrite last_char_cons in Hl by discriminate.
    rewrite rstrip_cons. now rewrite (IH Hl).
Qed.

Lemma lstrip_id (c x : ascii) (r : string) :
  x <> c -> lstrip c (String x r) = String x r.
Proof. intro Hne. simpl. now rewrite ascii_eqb_false. Qed.

(** A value whose ends are not [c] is left alone by [strip c]. *)
Lemma strip_id (c : ascii) (s : string) :
  startswith_char c s = false -> last_char s <> Some c -> strip c s = s.
Proof.
  unfold strip. destruct s as [| x r]; [reflexivity |].
  simpl startswith_char. intros Hx Hl.
  apply Ascii.eqb_neq in Hx. rewrite lstrip_id by exact Hx.
  now apply rstrip_id.
Qed.

(** One pair of [c] around a text whose ends are not [c] is what [strip c]
    removes. *)
Lemma strip_pair (c : ascii) (inner : string) :
  startswith_char c inner = false -> last_char inner <> Some c ->
  strip c (String c (inner ++ chr c)) = inner.
Proof.
  unfold strip. intros Hx Hl. simpl lstrip. rewrite Ascii.eqb_refl.
  destruct inner as [| x r].
  - simpl. now rewrite Ascii.eqb_refl.
  - simpl in Hx. apply Ascii.eqb_neq in Hx.
    change (String x r ++ chr c) with (String x (r ++ chr c)).
    rewrite lstrip_id by exact Hx.
    change (String x (r ++ chr c)) with (String x r ++ chr c).
    rewrite rstrip_app_chr. now apply rstrip_id.
Qed.

Lemma plain_ends_spec (inner : string) (c : ascii) :
  plain_ends inner = true -> is_quote c = true ->
  startswith_char c inner = false /\ last_char inner <> Some c.
Proof.
  intros Hp Hc. destruct inner as [| x r]; [split; [reflexivity | discriminate] |].
  unfold plain_ends in Hp. apply andb_true_iff in Hp. destruct Hp as [Hx Hl].
  split.
  - simpl. apply Ascii.eqb_neq. intros ->. rewrite Hc in Hx. discriminate.
  - intro E. rewrite E, Hc in Hl. discriminate.
Qed.

Lemma DQ_neq_SQ : DQ <> SQ.
Proof. discriminate. Qed.

(** Both strips together on a value in one layer of quotes. *)
Lemma strip_both_one_layer (q : ascii) (inner : string) :
  is_quote q = true -> plain_ends inner = true ->
  strip SQ (strip DQ (String q (inner ++ chr q))) = inner.
Proof.
  intros Hq Hp.
  destruct (plain_ends_spec inner DQ Hp eq_refl) as [HxD HlD].
  destruct (plain_ends_spec inner SQ Hp eq_refl) as [HxS HlS].
  destruct (is_quote_cases q Hq) as [-> | ->].
  - rewrite strip_pair by assumption. now apply strip_id.
  - rewrite (strip_id DQ).
    + now apply strip_pair.
    + reflexivity.
    + rewrite last_char_cons by apply app_chr_not_empty.
      rewrite last_char_app_chr. intro E. inversion E.
Qed.

Lemma contains_char_app (c : ascii) (a b : string) :
  contains_char c (a ++ b) = contains_char c a || contains_char c b.
Proof.
  induction a as [| x r IH]; simpl; [reflexivity |].
  now rewrite IH, orb_assoc.
Qed.

Lemma has_quote_app (a b : string) : has_quote (a ++ b) = has_quote a || has_quote b.
Proof.
  unfold has_quote. rewrite !contains_char_app.
  destruct (contains_char SQ a), (contains_char DQ a),
    (contains_char SQ b), (contains_char DQ b); reflexivity.
Qed.

(** ** Counting separators in a text put together *)

Lemma unquoted_count_app (sep : ascii) (a b : string) :
  balanced b = true ->
  unquoted_count sep (a ++ b) = unquoted_count sep a + unquoted_count sep b.
Proof.
  intro Hb. induction a as [| c r IH]; [reflexivity |].
  simpl. rewrite IH, (balanced_app r b Hb). lia.
Qed.

Lemma unquoted_count_cons_sep (sep : ascii) (b : string) :
  balanced b = true ->
  unquoted_count sep (String sep b) = S (unquoted_count sep b).
Proof. intro Hb. simpl. now rewrite Ascii.eqb_refl, Hb. Qed.

Lemma unquoted_count_cons_other (sep c : ascii) (b : string) :
  c <> sep -> unquoted_count sep (String c b) = unquoted_count sep b.
Proof. intro Hc. simpl. now rewrite (ascii_eqb_false c sep Hc). Qed.

(** The parts of an option cut at an unquoted [=] that is the only one. *)
Lemma single_equals_parts (par val : string) :
  balanced val = true ->
  unquoted_count EQ (par ++ String EQ val) = 1 ->
  unquoted_count EQ par = 0 /\ unquoted_count EQ val = 0.
Proof.
  intros Hb H1.
  rewrite unquoted_count_app in H1
    by (rewrite balanced_cons_plain; [exact Hb | reflexivity]).
  rewrite (unquoted_count_cons_sep EQ val Hb) in H1. lia.
Qed.

Lemma equals_split_pair (par val : string) :
  unquoted_count EQ par = 0 -> unquoted_count EQ val = 0 ->
  balanced val = true ->
  EQUALS_MATCHER_split (par ++ String EQ val) = [par; val].
Proof.
  intros Hp Hv Hb. unfold EQUALS_MATCHER_split.
  rewrite re_split_app by (reflexivity || assumption).
  now rewrite (re_split_whole EQ par Hp), (re_split_whole EQ val Hv).
Qed.

Lemma has_quote_option (par val : string) :
  has_quote (par ++ String EQ val) = has_quote (par ++ val).
Proof. now rewrite !has_quote_app, has_quote_cons. Qed.

(** The loop body on an option with a quote character, cut at its single
    unquoted [=]. *)
Lemma normalize_option (par val : string) :
  unquoted_count EQ par = 0 -> unquoted_count EQ val = 0 ->
  balanced val = true -> has_quote (par ++ val) = true ->
  normalize_token (par ++ String EQ val)
  = match last_char val with
    | None => Raise IndexError
    | Some l =>
        if startswith_char l val
        then Ok (par ++ String EQ (strip SQ (strip DQ val)))
        else Ok (par ++ String EQ val)
    end.
Proof.
  intros Hp Hv Hb Hq. unfold normalize_token.
  rewrite has_quote_option, Hq, contains_char_app. simpl contains_char.
  rewrite orb_true_r. simpl andb.
  now rewrite (equals_split_pair par val Hp Hv Hb).
Qed.

Lemma last_char_none (s : string) : last_char s = None -> s = EmptyString.
Proof.
  induction s as [| c r IH]; [reflexivity |].
  destruct r as [| c' r']; [discriminate |].
  intro Hl. rewrite last_char_cons in Hl by discriminate.
  apply IH in Hl. discriminate.
Qed.

Lemma is_quote_false (c : ascii) : is_quote c = false -> c <> DQ /\ c <> SQ.
Proof.
  unfold is_quote. intro Hc. apply orb_false_iff in Hc.
  destruct Hc as [Hd Hs]. split; intros ->.
  - now rewrite Ascii.eqb_refl in Hd.
  - now rewrite Ascii.eqb_refl in Hs.
Qed.

Lemma wrapped_spec (val : string) :
  wrapped val = true ->
  exists c, startswith_char c val = true /\ last_char val = Some c
            /\ is_quote c = true.
Proof.
  unfold wrapped. destruct val as [| c r]; [discriminate |].
  destruct (last_char (String c r)) as [l |]; [| discriminate].
  intro Hw. apply andb_true_iff in Hw. destruct Hw as [Hcl Hq].
  apply Ascii.eqb_eq in Hcl. subst l. exists c.
  simpl. now rewrite Ascii.eqb_refl.
Qed.

Lemma wrapped_has_quote (val : string) :
  wrapped val = true -> has_quote val = true.
Proof.
  intro Hw. destruct (wrapped_spec val Hw) as (c & Hs & _ & Hq).
  destruct val as [| x r]; [discriminate |].
  simpl in Hs. apply Ascii.eqb_eq in Hs. subst x.
  now rewrite has_quote_cons, Hq.
Qed.

(** A value that is not wrapped is given back by the two [strip]s, or does
    not start with its last character. *)
Lemma not_wrapped_fixed (val : string) (l : ascii) :
  wrapped val = false -> last_char val = Some l ->
  startswith_char l val = false \/ strip SQ (strip DQ val) = val.
Proof.
  unfold wrapped. destruct val as [| c r]; [discriminate |].
  intros Hw Hl. rewrite Hl in Hw.
  destruct (Ascii.eqb c l) eqn:Ecl; [| left; exact Ecl].
  right. apply Ascii.eqb_eq in Ecl. subst l. simpl in Hw.
  destruct (is_quote_false c Hw) as (Hd & Hs).
  assert (Hsd : strip DQ (String c r) = String c r).
  { apply strip_id.
    - simpl. now apply ascii_eqb_false.
    - rewrite Hl. intro E. injection E as E. contradiction. }
  rewrite Hsd. apply strip_id.
  - simpl. now apply ascii_eqb_false.
  - rewrite Hl. intro E. injection E as E. contradiction.
Qed.

Lemma plain_token_unchanged (t : string) :
  has_quote t = false -> normalize_token t = Ok t.
Proof.
  intro Hq. unfold normalize_token. rewrite Hq. now rewrite andb_false_r.
Qed.

(** The loop body leaves an option alone when its value is not wrapped. *)
Lemma normalize_not_wrapped (par val : string) :
  unquoted_count EQ par = 0 -> unquoted_count EQ val = 0 ->
  balanced val = true -> val <> EmptyString -> wrapped val = false ->
  normalize_token (par ++ String EQ val) = Ok (par ++ String EQ val).
Proof.
  intros Hp Hv Hb Hne Hw.
  destruct (has_quote (par ++ val)) eqn:Hq.
  - rewrite (normalize_option par val Hp Hv Hb Hq).
    destruct (last_char val) as [l |] eqn:Hl.
    + destruct (not_wrapped_fixed val l Hw Hl) as [Hs | Hs].
      * now rewrite Hs.
      * rewrite Hs. now destruct (startswith_char l val).
    + apply last_char_none in Hl. contradiction.
  - apply plain_token_unchanged. now rewrite has_quote_option.
Qed.

(** The loop body takes the quote characters from the ends of a wrapped
    value. *)
Lemma normalize_wrapped (par val : string) :
  unquoted_count EQ par = 0 -> unquoted_count EQ val = 0 ->
  balanced val = true -> wrapped val = true ->
  normalize_token (par ++ String EQ val)
  = Ok (par ++ String EQ (strip SQ (strip DQ val))).
Proof.
  intros Hp Hv Hb Hw.
  assert (Hq : has_quote (par ++ val) = true)
    by (rewrite has_quote_app, (wrapped_has_quote val Hw); apply orb_true_r).
  rewrite (normalize_option par val Hp Hv Hb Hq).
  destruct (wrapped_spec val Hw) as (c & Hs & Hl & _).
  now rewrite Hl, Hs.
Qed.

Lemma wrapped_pair (q : ascii) (inner : string) :
  is_quote q = true -> wrapped (String q (inner ++ chr q)) = true.
Proof.
  intro Hq. unfold wrapped.
  rewrite last_char_cons by apply app_chr_not_empty.
  rewrite last_char_app_chr. now rewrite Ascii.eqb_refl, Hq.
Qed.

(** ** The tokenizer *)

(** C5. The two worked command lines of the specification: the quoted
    value of [r.mapcalc] keeps its inner spaces and loses its quotes, and
    the plain [g.region] line is cut at its spaces. *)
Theorem tokenize_examples :
  split_grass_command mapcalc_line = Ok ["r.mapcalc"; "expression=a = b + 1"]
  /\ split_grass_command region_line = Ok ["g.region"; "raster=elevation"; "-p"].
Proof. split; reflexivity. Qed.

(** C3, amended. For an option token [par=val] cut at its single unquoted
    [=], whose value starts and ends with the same quote character, the
    tokenizer removes every leading and trailing double quote and then
    every leading and trailing single quote of the value and rewrites the
    token as [par=stripped]; this is exactly one layer when the text inside
    the outer pair neither starts nor ends with a quote character.  The key
    may hold any text, quoted [=] included. *)
Theorem quoted_value_stripped (par val : string) (q : ascii) (inner : string) :
  balanced val = true ->
  unquoted_count EQ (par ++ String EQ val) = 1 ->
  is_quote q = true ->
  val = String q (inner ++ chr q) ->
  normalize_token (par ++ String EQ val)
    = Ok (par ++ String EQ (strip SQ (strip DQ val)))
  /\ (plain_ends inner = true ->
      normalize_token (par ++ String EQ val) = Ok (par ++ String EQ inner)).
Proof.
  intros Hbal Hone Hq Hval.
  destruct (single_equals_parts par val Hbal Hone) as (Hp & Hv).
  assert (Hw : wrapped val = true) by (rewrite Hval; now apply wrapped_pair).
  pose proof (normalize_wrapped par val Hp Hv Hbal Hw) as Hgen.
  split; [exact Hgen |].
  intro Hpl. rewrite Hgen, Hval. now rewrite strip_both_one_layer.
Qed.

Lemma quoted_value_stripped_witness :
  normalize_token ("expression" ++ String EQ (String DQ ("a = b + 1" ++ chr DQ)))
  = Ok "expression=a = b + 1"
  /\ normalize_token quoted_key_token = Ok (quoted_key ++ "=c d").
Proof.
  split.
  - exact (proj2 (quoted_value_stripped "expression"
                    (String DQ ("a = b + 1" ++ chr DQ)) DQ "a = b + 1"
                    eq_refl eq_refl eq_refl eq_refl) eq_refl).
  - exact (proj2 (quoted_value_stripped quoted_key
                    (String SQ ("c d" ++ chr SQ)) SQ "c d"
                    eq_refl eq_refl eq_refl eq_refl) eq_refl).
Defined.

(** C3 as stated fails: a value in two layers of double quotes loses both,
    and single quotes inside double quotes go as well, where one layer of
    the outer quote character would leave the inner pair. *)
Lemma one_layer_counterexample :
  (contains_char EQ layered_token = true /\ has_quote layered_token = true
   /\ EQUALS_MATCHER_split layered_token = ["x"; layered_value]
   /\ startswith_char DQ layered_value = true
   /\ last_char layered_value = Some DQ
   /\ split_grass_command layered_token = Ok ["x=a"]
   /\ "x=a" <> "x=" ++ strip_one_layer DQ layered_value)
  /\ (EQUALS_MATCHER_split mixed_token = ["x"; mixed_value]
      /\ startswith_char DQ mixed_value = true
      /\ last_char mixed_value = Some DQ
      /\ split_grass_command mixed_token = Ok ["x=a"]
      /\ "x=a" <> "x=" ++ strip_one_layer DQ mixed_value).
Proof. repeat split; try reflexivity; vm_compute; discriminate. Qed.

Lemma stable_spec (t : string) :
  stable t = true ->
  balanced t = true /\ unquoted_count SP t = 0 /\ normalize_token t = Ok t.
Proof.
  unfold stable. intro Hs.
  apply andb_true_iff in Hs. destruct Hs as [Hs Hn].
  apply andb_true_iff in Hs. destruct Hs as [Hb Hc].
  apply Nat.eqb_eq in Hc. repeat split; try assumption.
  destruct (normalize_token t) as [t' |]; [| discriminate].
  apply String.eqb_eq in Hn. now subst.
Qed.

Lemma balanced_join (toks : list string) :
  Forall (fun t => balanced t = true) toks -> balanced (join SP toks) = true.
Proof.
  induction 1 as [| t rest Ht Hrest IH]; [reflexivity |].
  destruct rest as [| t' rest']; [exact Ht |].
  change (join SP (t :: t' :: rest'))
    with (t ++ String SP (join SP (t' :: rest'))).
  rewrite balanced_app; [exact Ht |].
  now rewrite balanced_cons_plain.
Qed.

(** Tokens that are stable are found again in the line they are joined to. *)
Lemma split_join_stable (toks : list string) :
  toks <> [] -> Forall (fun t => stable t = true) toks ->
  SPACE_MATCHER_split (join_spaces toks) = toks.
Proof.
  unfold SPACE_MATCHER_split, join_spaces.
  intros Hne Hst. induction Hst as [| t rest Ht Hrest IH]; [contradiction |].
  destruct (stable_spec t Ht) as (Hb & Hc & _).
  destruct rest as [| t' rest'].
  - now apply re_split_whole.
  - change (join SP (t :: t' :: rest'))
      with (t ++ String SP (join SP (t' :: rest'))).
    rewrite re_split_app.
    + rewrite (re_split_whole SP t Hc), IH by discriminate. reflexivity.
    + reflexivity.
    + apply balanced_join.
      eapply Forall_impl; [| exact Hrest].
      intros a Ha. now destruct (stable_spec a Ha).
Qed.

(** A line without quote characters is cut at every space. *)
Lemma plain_line_tokens (line : string) :
  has_quote line = false ->
  Forall (fun t => has_quote t = false /\ contains_char SP t = false)
         (re_split SP line).
Proof.
  induction line as [| c r IH]; intro Hq.
  - repeat constructor.
  - rewrite has_quote_cons in Hq. apply orb_false_iff in Hq.
    destruct Hq as [Hc Hr]. specialize (IH Hr).
    cbn [re_split]. rewrite la_even_balanced, (no_quote_balanced r Hr).
    rewrite andb_true_r. destruct (Ascii.eqb c SP) eqn:Ec.
    + constructor; [split; reflexivity | exact IH].
    + pose proof (re_split_not_nil SP r) as Hne.
      destruct (re_split SP r) as [| t ts]; [contradiction |].
      inversion IH as [| ? ? [Hqt Hst] Hts]; subst.
      constructor; [| exact Hts]. split.
      * rewrite has_quote_cons, Hc, Hqt. reflexivity.
      * simpl. now rewrite Ec, Hst.
Qed.

Lemma map_result_length {A B} (f : A -> result B) (xs : list A) (ys : list B) :
  map_result f xs = Ok ys -> length ys = length xs.
Proof.
  revert ys. induction xs as [| x rest IH]; intros ys Hm; simpl in Hm.
  - now inversion Hm.
  - destruct (f x); simpl in Hm; [| discriminate].
    destruct (map_result f rest) as [ys' |] eqn:Er; simpl in Hm;
      [| discriminate].
    inversion Hm; subst. simpl. now rewrite (IH ys').
Qed.

Lemma stable_intro (t : string) :
  balanced t = true -> unquoted_count SP t = 0 -> normalize_token t = Ok t ->
  stable t = true.
Proof.
  intros Hb Hs Hn. unfold stable. rewrite Hb, Hs, Hn. simpl.
  apply String.eqb_refl.
Qed.

(** The pieces a text is cut into at its unquoted separators: none of them
    has an unquoted separator, the first one has the parity of the text and
    the quotes of every other one pair up. *)
Lemma re_split_pieces (sep : ascii) (s : string) :
  is_quote sep = false ->
  exists t ts,
    re_split sep s = t :: ts
    /\ balanced t = balanced s
    /\ Forall (fun p => balanced p = true) ts
    /\ Forall (fun p => unquoted_count sep p = 0) (t :: ts).
Proof.
  intro Hsep. induction s as [| c r IH].
  - exists EmptyString, []. repeat constructor.
  - destruct IH as (t & ts & Hsplit & Hbt & Hbts & Hcnt).
    cbn [re_split]. rewrite la_even_balanced, Hsplit.
    destruct (Ascii.eqb c sep && balanced r) eqn:Ecut.
    + apply andb_true_iff in Ecut. destruct Ecut as (Ec & Hr).
      apply Ascii.eqb_eq in Ec. subst c.
      exists EmptyString, (t :: ts).
      split; [reflexivity |].
      split; [now rewrite (balanced_cons_plain sep r Hsep), Hr |].
      split; [constructor; [now rewrite Hbt | exact Hbts] |].
      constructor; [reflexivity | exact Hcnt].
    + exists (String c t), ts.
      split; [reflexivity |].
      split.
      * unfold balanced in *. simpl count_quotes.
        destruct (is_quote c); simpl plus; [| exact Hbt].
        rewrite !Nat.even_succ, <- !Nat.negb_even. now rewrite Hbt.
      * split; [exact Hbts |].
        inversion Hcnt as [| ? ? Ht Hts]; subst.
        constructor; [| exact Hts].
        simpl. change (Nat.even (count_quotes t)) with (balanced t).
        now rewrite Hbt, Ecut, Ht.
Qed.

(** The pieces of a line with balanced quotes. *)
Lemma balanced_line_pieces (line : string) :
  balanced line = true ->
  Forall (fun p => balanced p = true /\ unquoted_count SP p = 0)
         (SPACE_MATCHER_split line).
Proof.
  intro Hb. unfold SPACE_MATCHER_split.
  destruct (re_split_pieces SP line eq_refl)
    as (t & ts & -> & Hbt & Hbts & Hcnt).
  rewrite Hb in Hbt.
  assert (Hall : Forall (fun p => balanced p = true) (t :: ts))
    by (constructor; assumption).
  clear Hbt Hbts. induction Hall as [| p ps Hp _ IH]; [constructor |].
  inversion Hcnt; subst. constructor; [split; assumption | now apply IH].
Qed.

(** The tokenizer turns a tidy piece into a stable token. *)
Lemma tidy_stable (p : string) :
  tidy p -> balanced p = true -> unquoted_count SP p = 0 ->
  exists t, normalize_token p = Ok t /\ stable t = true.
Proof.
  intros [Hq | [He | (par & val & Hp & H1 & Hbv & Hne & Hcase)]] Hb Hs.
  - exists p. pose proof (plain_token_unchanged p Hq) as Hn.
    split; [exact Hn | now apply stable_intro].
  - assert (Hn : normalize_token p = Ok p)
      by (unfold normalize_token; now rewrite He).
    exists p. split; [exact Hn | now apply stable_intro].
  - subst p.
    destruct (single_equals_parts par val Hbv H1) as (Hep & Hev).
    assert (Hbo : balanced (String EQ val) = true)
      by (rewrite balanced_cons_plain; [exact Hbv | reflexivity]).
    assert (Hbp : balanced par = true)
      by (rewrite <- (balanced_app par (String EQ val) Hbo); exact Hb).
    assert (Hsp : unquoted_count SP par = 0)
      by (rewrite (unquoted_count_app SP par _ Hbo) in Hs; lia).
    destruct (wrapped val) eqn:Hw.
    + destruct Hcase as [Hcase | (Hbs & Hss & Hrest)]; [discriminate |].
      set (v := strip SQ (strip DQ val)) in *.
      exists (par ++ String EQ v).
      split; [now apply normalize_wrapped |].
      assert (Hbov : balanced (String EQ v) = true)
        by (rewrite balanced_cons_plain; [exact Hbs | reflexivity]).
      apply stable_intro.
      * now rewrite (balanced_app par (String EQ v) Hbov).
      * rewrite (unquoted_count_app SP par _ Hbov), Hsp.
        rewrite unquoted_count_cons_other by discriminate. exact Hss.
      * destruct Hrest as [Hplain | (Hev' & Hne' & Hw')].
        -- apply plain_token_unchanged. now rewrite has_quote_option.
        -- now apply normalize_not_wrapped.
    + exists (par ++ String EQ val).
      assert (Hn : normalize_token (par ++ String EQ val)
                   = Ok (par ++ String EQ val))
        by now apply normalize_not_wrapped.
      split; [exact Hn | now apply stable_intro].
Qed.

Lemma map_result_Forall {A B} (f : A -> result B) (P : B -> Prop)
    (xs : list A) :
  Forall (fun x => exists y, f x = Ok y /\ P y) xs ->
  exists ys, map_result f xs = Ok ys /\ Forall P ys.
Proof.
  induction 1 as [| x rest (y & Hy & Py) _ (ys & Hys & Pys)].
  - exists []. split; [reflexivity | constructor].
  - exists (y :: ys). simpl. rewrite Hy, Hys.
    split; [reflexivity | now constructor].
Qed.

(** Stable tokens come back from the line they are joined to. *)
Lemma stable_tokens_again (toks : list string) :
  toks <> [] -> Forall (fun t => stable t = true) toks ->
  split_grass_command (join_spaces toks) = Ok toks.
Proof.
  intros Hne Hst.
  unfold split_grass_command. rewrite split_join_stable by assumption.
  apply map_result_fixed.
  eapply Forall_impl; [| exact Hst].
  intros t Ht. now destruct (stable_spec t Ht) as (_ & _ & Hn).
Qed.

(** C4, amended. A command line with balanced quotes whose pieces, as the
    unquoted spaces cut them, are tidy is tokenized without a fault, and
    joining its tokens with single spaces and tokenizing again gives the
    same tokens.  A piece is tidy when it has no quote character or no [=],
    or is an option cut at its single unquoted [=] with a value that is not
    empty and either is not wrapped in quote characters or, with its
    leading and trailing quote characters taken away, keeps quotes that
    pair up and no bare space and, if a quote character is left in the
    token, no unquoted [=], some text and no wrapping of its own. *)
Theorem retokenize_stable (line : string) :
  balanced line = true ->
  Forall tidy (SPACE_MATCHER_split line) ->
  exists toks,
    split_grass_command line = Ok toks
    /\ split_grass_command (join_spaces toks) = Ok toks.
Proof.
  intros Hb Htidy.
  pose proof (balanced_line_pieces line Hb) as Hpieces.
  assert (Hall : Forall (fun p => exists t, normalize_token p = Ok t
                                            /\ stable t = true)
                        (SPACE_MATCHER_split line)).
  { apply Forall_forall. intros p Hin.
    rewrite Forall_forall in Htidy, Hpieces.
    destruct (Hpieces p Hin) as (Hbp & Hsp).
    exact (tidy_stable p (Htidy p Hin) Hbp Hsp). }
  destruct (map_result_Forall normalize_token _ _ Hall) as (toks & Htoks & Hst).
  exists toks. split; [exact Htoks |].
  apply stable_tokens_again; [| exact Hst].
  pose proof (map_result_length _ _ _ Htoks) as Hlen. intros ->.
  unfold SPACE_MATCHER_split in Hlen.
  pose proof (re_split_not_nil SP line) as Hn.
  destruct (re_split SP line); [contradiction | discriminate].
Qed.

Lemma retokenize_stable_witness :
  exists toks,
    split_grass_command tidy_line = Ok toks
    /\ split_grass_command (join_spaces toks) = Ok toks.
Proof.
  apply (retokenize_stable tidy_line); [reflexivity |].
  change (Forall tidy
            ["d.text"; "text=" ++ text_value;
             "map=" ++ String DQ ("elev" ++ chr DQ)]).
  constructor; [left; reflexivity |].
  constructor.
  - right. right. exists "text", text_value.
    split; [reflexivity |]. split; [reflexivity |].
    split; [reflexivity |]. split; [discriminate |].
    left. reflexivity.
  - constructor; [| constructor].
    right. right. exists "map", (String DQ ("elev" ++ chr DQ)).
    split; [reflexivity |]. split; [reflexivity |].
    split; [reflexivity |]. split; [discriminate |].
    right. split; [reflexivity |]. split; [reflexivity |].
    left. reflexivity.
Defined.

(** C4 as stated fails on the [r.mapcalc] line of the specification: its
    quotes pair up, and the spaces of the value, quoted in the line, are
    bare in the token and cut it in the second pass.  It fails as well on
    a value in double quotes inside single quotes: the first pass takes
    the single quotes, the second one the double quotes. *)
Lemma retokenize_counterexample :
  (balanced mapcalc_line = true
   /\ split_grass_command mapcalc_line = Ok ["r.mapcalc"; "expression=a = b + 1"]
   /\ split_grass_command (join_spaces ["r.mapcalc"; "expression=a = b + 1"])
      = Ok ["r.mapcalc"; "expression=a"; "="; "b"; "+"; "1"]
   /\ split_grass_command (join_spaces ["r.mapcalc"; "expression=a = b + 1"])
      <> split_grass_command mapcalc_line)
  /\ (balanced nested_token = true
      /\ split_grass_command nested_token = Ok ["x=" ++ String DQ ("a" ++ chr DQ)]
      /\ split_grass_command (join_spaces ["x=" ++ String DQ ("a" ++ chr DQ)])
         = Ok ["x=a"]
      /\ split_grass_command (join_spaces ["x=" ++ String DQ ("a" ++ chr DQ)])
         <> split_grass_command nested_token).
Proof.
  split.
  - split; [reflexivity |]. split; [reflexivity |]. split; [reflexivity |].
    vm_compute. discriminate.
  - split; [reflexivity |]. split; [reflexivity |]. split; [reflexivity |].
    vm_compute. discriminate.
Qed.

(** C10. A token with [=] and a quote character goes through the loop body
    only when it has exactly one unquoted [=] with text after it: any other
    number of unquoted [=] is a [ValueError] of the unpacking, an empty
    value is an [IndexError], and either one ends the tokenizing of the
    line the token stands in. *)
Theorem option_token_faults (token : string) :
  contains_char EQ token = true ->
  has_quote token = true ->
  (forall t, normalize_token token = Ok t ->
     unquoted_count EQ token = 1 /\
     exists par val, token = par ++ String EQ val /\ val <> EmptyString)
  /\ (unquoted_count EQ token <> 1 -> normalize_token token = Raise ValueError)
  /\ (forall par, unquoted_count EQ token = 1 ->
        token = par ++ chr EQ -> normalize_token token = Raise IndexError)
  /\ (forall line e, In token (SPACE_MATCHER_split line) ->
        normalize_token token = Raise e ->
        exists e', split_grass_command line = Raise e').
Proof.
  intros Heq Hq.
  pose proof (re_split_length EQ token) as Hlen.
  pose proof (join_re_split EQ token) as Hjoin.
  assert (Hbody : normalize_token token =
    match EQUALS_MATCHER_split token with
    | [par; val] =>
        match last_char val with
        | None => Raise IndexError
        | Some l =>
            if startswith_char l val
            then Ok (par ++ String EQ (strip SQ (strip DQ val)))
            else Ok token
        end
    | _ => Raise ValueError
    end)
    by (unfold normalize_token; now rewrite Heq, Hq).
  unfold EQUALS_MATCHER_split in Hbody.
  repeat split.
  - destruct (re_split EQ token) as [| par [| val [| x rest]]];
      rewrite Hbody in H; try discriminate. simpl in Hlen. lia.
  - destruct (re_split EQ token) as [| par [| val [| x rest]]];
      rewrite Hbody in H; try discriminate.
    exists par, val. split; [now rewrite <- Hjoin |].
    intros ->. discriminate.
  - intro Hne. rewrite Hbody.
    destruct (re_split EQ token) as [| par [| val [| x rest]]];
      try reflexivity. simpl in Hlen. lia.
  - intros par Hone Htok. rewrite Hbody. clear Hbody Hjoin.
    rewrite Htok in Hlen |- *. unfold chr in *.
    rewrite re_split_app in Hlen |- * by reflexivity.
    rewrite Htok in Hone. rewrite Hone in Hlen.
    rewrite length_app in Hlen. simpl in Hlen.
    destruct (re_split EQ par) as [| p [| x rest]]; simpl in Hlen; try lia.
    reflexivity.
  - intros line e Hin Hr. unfold split_grass_command.
    eapply map_result_raise; eauto.
Qed.

Lemma option_token_faults_witness :
  normalize_token empty_value_token = Raise IndexError.
Proof.
  exact (proj1 (proj2 (proj2
           (option_token_faults empty_value_token eq_refl eq_refl)))
           (String DQ ("x" ++ chr DQ)) eq_refl eq_refl).
Defined.

(** ** Occurrence of a text in a message *)

Lemma append_assoc (a b c : string) : (a ++ b) ++ c = a ++ (b ++ c).
Proof. induction a as [| x r IH]; simpl; [reflexivity | now rewrite IH]. Qed.

Lemma occurs_in_here (sub post : string) : occurs_in sub (sub ++ post).
Proof. exists EmptyString, post. reflexivity. Qed.

Lemma append_nil_r (s : string) : s ++ EmptyString = s.
Proof. induction s as [| x r IH]; simpl; [reflexivity | now rewrite IH]. Qed.

Lemma occurs_in_self (s : string) : occurs_in s s.
Proof. exists EmptyString, EmptyString. simpl. now rewrite append_nil_r. Qed.

Lemma occurs_in_right (sub a s : string) :
  occurs_in sub s -> occurs_in sub (a ++ s).
Proof.
  intros (pre & post & ->). exists (a ++ pre), post.
  now rewrite append_assoc.
Qed.

Lemma is_prefix_app (p post : string) : is_prefix p (p ++ post) = true.
Proof.
  induction p as [| x r IH]; [reflexivity |].
  simpl. now rewrite Ascii.eqb_refl, IH.
Qed.

Lemma is_substring_cons (p : string) (c : ascii) (s : string) :
  is_substring p s = true -> is_substring p (String c s) = true.
Proof. intro Hs. simpl. rewrite Hs. apply orb_true_r. Qed.

(** The boolean test finds every occurrence. *)
Lemma occurs_in_is_substring (sub s : string) :
  occurs_in sub s -> is_substring sub s = true.
Proof.
  intros (pre & post & ->). induction pre as [| c r IH].
  - simpl append. destruct (sub ++ post) eqn:E;
      simpl; rewrite <- E, is_prefix_app; reflexivity.
  - simpl append. now apply is_substring_cons.
Qed.

Lemma is_prefix_split (p s : string) :
  is_prefix p s = true -> exists post, s = p ++ post.
Proof.
  revert s. induction p as [| a p' IH]; intros s Hp.
  - exists s. reflexivity.
  - destruct s as [| b s']; [discriminate |].
    simpl in Hp. apply andb_true_iff in Hp. destruct Hp as (Hab & Hp).
    apply Ascii.eqb_eq in Hab. subst b.
    destruct (IH s' Hp) as (post & ->). exists post. reflexivity.
Qed.

(** The boolean test finds nothing else. *)
Lemma is_substring_occurs (sub s : string) :
  is_substring sub s = true -> occurs_in sub s.
Proof.
  induction s as [| c r IH]; intro Hs.
  - simpl in Hs. rewrite orb_false_r in Hs.
    destruct (is_prefix_split _ _ Hs) as (post & ->). apply occurs_in_here.
  - simpl in Hs. apply orb_true_iff in Hs. destruct Hs as [Hs | Hs].
    + destruct (is_prefix_split _ _ Hs) as (post & ->). apply occurs_in_here.
    + destruct (IH Hs) as (pre & post & ->).
      exists (String c pre), post. reflexivity.
Qed.

(** Membership of a text in a parsed list. *)
Lemma existsb_is_str (k : string) (items : list json) :
  existsb (fun v => is_str v k) items = true <-> In (JString k) items.
Proof.
  rewrite existsb_exists. split.
  - intros (v & Hin & Hv). destruct v; try discriminate.
    simpl in Hv. apply String.eqb_eq in Hv. now subst.
  - intro Hin. exists (JString k). split; [exact Hin |].
    simpl. apply String.eqb_refl.
Qed.

(** ** The operation compiler and the chain builder *)

Section ClientProperties.
Context `{Runtime}.

Lemma mem_In (x : string) (xs : list string) : In x xs -> mem x xs = true.
Proof.
  intro Hin. unfold mem. apply existsb_exists. exists x.
  split; [exact Hin | apply String.eqb_refl].
Qed.

(** C7, amended. The compiler gives [None] for an empty token sequence,
    which is a skip and no error; it raises for every token sequence that
    has the help flag in it; when the tool exits with a code other than
    zero and both captured streams decode, it raises an error whose
    message holds both the captured standard output and the captured
    standard error; and when a captured stream does not decode, the
    decoding error is raised, whatever the exit code. *)
Theorem compile_outcomes :
  create_actinia_process [] = Ok JNull
  /\ (forall command, In help_flag command ->
        exists msg, create_actinia_process command = Raise (Exception msg))
  /\ (forall command out err returncode stdout_buff stderr_buff,
        command <> [] -> mem help_flag command = false ->
        popen_communicate (with_json_flag command) = Some (out, err, returncode) ->
        decode out = Some stdout_buff -> decode err = Some stderr_buff ->
        returncode <> 0%Z ->
        exists msg, create_actinia_process command = Raise (Exception msg)
                    /\ occurs_in stdout_buff msg /\ occurs_in stderr_buff msg)
  /\ (forall command out err returncode,
        command <> [] -> mem help_flag command = false ->
        popen_communicate (with_json_flag command) = Some (out, err, returncode) ->
        decode out = None \/ decode err = None ->
        create_actinia_process command = Raise UnicodeDecodeError).
Proof.
  split; [reflexivity | split; [| split]].
  - intros command Hin. unfold create_actinia_process.
    destruct command as [| c rest]; [contradiction |].
    rewrite (mem_In _ _ Hin). eauto.
  - intros command out err rc so se Hne Hhelp Hrun Hout Herr Hrc.
    unfold create_actinia_process.
    destruct command as [| c rest]; [contradiction |].
    rewrite Hhelp, Hrun, Hout, Herr.
    apply Z.eqb_neq in Hrc. rewrite Hrc. simpl negb. cbv iota.
    eexists. split; [reflexivity | split].
    + do 5 apply occurs_in_right. apply occurs_in_here.
    + do 7 apply occurs_in_right.
      exists EmptyString, NL. reflexivity.
  - intros command out err rc Hne Hhelp Hrun Hdec.
    unfold create_actinia_process.
    destruct command as [| c rest]; [contradiction |].
    rewrite Hhelp, Hrun.
    destruct Hdec as [Hout | Herr].
    + now rewrite Hout.
    + rewrite Herr. now destruct (decode out).
Qed.

(** C6. Operations that the compiler gives for the commands, none of them
    empty, are appended in the order of the commands: on a fresh chain the
    list is these operations, as many as there are commands.  An empty or
    absent operation, such as the [None] of an empty command, leaves the
    chain as it was. *)
Theorem chain_in_order (commands : list (list string)) (ops : list json) :
  Forall2 (fun c p => create_actinia_process c = Ok p /\ truthy p = true)
          commands ops ->
  (forall chain, build_chain chain commands = Ok (chain ++ ops)%list)
  /\ build_chain [] commands = Ok ops
  /\ length ops = length commands
  /\ (forall chain p, truthy p = false -> append_process chain p = chain)
  /\ (forall chain rest, build_chain chain ([] :: rest) = build_chain chain rest).
Proof.
  intro Hall.
  assert (Hgen : forall chain, build_chain chain commands = Ok (chain ++ ops)%list).
  { induction Hall as [| c p cs ps [Hc Hp] _ IH]; intro chain.
    - simpl. now rewrite app_nil_r.
    - simpl. rewrite Hc. simpl. unfold append_process. rewrite Hp.
      rewrite IH. now rewrite <- app_assoc. }
  repeat split.
  - exact Hgen.
  - exact (Hgen []).
  - symmetry. eapply Forall2_length; eauto.
  - intros chain p Hp. unfold append_process. now rewrite Hp.
Qed.

End ClientProperties.

(** ** Submission and polling *)

Section PollingProperties.
Context `{Runtime}.

Lemma polls_cons_get {A} (url : string) (t : list event) (o : option (result A)) :
  polls (Get url :: t, o) = S (polls (t, o)).
Proof. reflexivity. Qed.

Lemma polls_app {A} (t t' : list event) (o o' : option (result A)) :
  polls ((t ++ t')%list, o) = polls (t, o') + polls (t', o).
Proof. unfold polls, trace. simpl. now rewrite filter_app, length_app. Qed.

(** One iteration on a snapshot that is not terminal: the two progress
    lines, the pause, and the loop goes on. *)
Lemma poll_step_pending (r : response) :
  pending r = true ->
  exists t, poll_step r = (t, Some (Ok None)) /\ filter is_get t = [].
Proof.
  unfold pending, status_of, poll_step.
  destruct (loads (text r)) as [d |]; [| discriminate].
  destruct (getitem d "status") as [s |]; [| discriminate].
  destruct (getitem d "message") as [m |]; [| discriminate].
  intro Hp. apply negb_true_iff in Hp. simpl. rewrite Hp. simpl.
  eexists. split; reflexivity.
Qed.

(** One iteration on a terminal snapshot: the two progress lines and the
    [break]. *)
Lemma poll_step_terminal (r : response) :
  terminal r = true ->
  exists t d st,
    loads (text r) = Some d /\ getitem d "status" = Ok st
    /\ is_terminal st = true
    /\ poll_step r
       = (t, Some (Ok (Some {| last_response := r; data := d;
                               final_status := st |})))
    /\ filter is_get t = [].
Proof.
  unfold terminal, status_of, poll_step.
  destruct (loads (text r)) as [d |]; [| discriminate].
  destruct (getitem d "status") as [s |] eqn:Es; [| discriminate].
  destruct (getitem d "message") as [m |]; [| discriminate].
  intro Hp. simpl. rewrite Hp. simpl.
  eexists. exists d, s. repeat split; reflexivity || assumption.
Qed.

Lemma poll_loop_pending (url : string) (r : response) (rest : list response) :
  pending r = true ->
  polls (poll_loop url (r :: rest)) = S (polls (poll_loop url rest))
  /\ outcome (poll_loop url (r :: rest)) = outcome (poll_loop url rest).
Proof.
  intro Hp. destruct (poll_step_pending r Hp) as (t & Hstep & Hget).
  cbn [poll_loop]. unfold bind at 1. unfold emit.
  unfold bind at 1. rewrite Hstep.
  destruct (poll_loop url rest) as [t' o'] eqn:E.
  unfold polls, trace, outcome. simpl.
  rewrite filter_app, Hget. simpl. split; reflexivity.
Qed.

Lemma poll_loop_terminal (url : string) (r : response) (rest : list response) :
  terminal r = true ->
  polls (poll_loop url (r :: rest)) = 1
  /\ exists d st,
       loads (text r) = Some d /\ getitem d "status" = Ok st
       /\ is_terminal st = true
       /\ outcome (poll_loop url (r :: rest))
          = Some (Ok {| last_response := r; data := d; final_status := st |}).
Proof.
  intro Ht.
  destruct (poll_step_terminal r Ht) as (t & d & st & Hl & Hs & Hterm & Hstep & Hget).
  cbn [poll_loop]. unfold bind at 1. unfold emit.
  unfold bind at 1. rewrite Hstep.
  unfold polls, trace, outcome, ret. simpl.
  rewrite filter_app, Hget. simpl. split; [reflexivity |].
  exists d, st. repeat split; assumption || reflexivity.
Qed.

(** The test of the loop holds of the three status words and of nothing
    else. *)
Lemma is_terminal_literal (s : json) :
  is_terminal s = true
  <-> s = JString "finished" \/ s = JString "error" \/ s = JString "terminated".
Proof.
  unfold is_terminal, is_str.
  destruct s as [| b | n | t | items | fields];
    try (split; [discriminate | intros [E | [E | E]]; discriminate E]).
  rewrite !orb_true_iff, !String.eqb_eq. split.
  - intros [[E | E] | E]; subst t; auto.
  - intros [E | [E | E]]; injection E as E; auto.
Qed.

Lemma pending_literal (x : response) :
  (exists s, status_of x = Some s /\ s <> JString "finished"
             /\ s <> JString "error" /\ s <> JString "terminated") ->
  pending x = true.
Proof.
  intros (s & Hs & Hf & He & Ht). unfold pending. rewrite Hs.
  apply negb_true_iff. destruct (is_terminal s) eqn:E; [| reflexivity].
  apply is_terminal_literal in E. destruct E as [E | [E | E]]; contradiction.
Qed.

Lemma terminal_literal (r : response) (st : string) :
  status_of r = Some (JString st) ->
  st = "finished" \/ st = "error" \/ st = "terminated" ->
  terminal r = true.
Proof.
  intros Hs Hst. unfold terminal. rewrite Hs. apply is_terminal_literal.
  destruct Hst as [E | [E | E]]; subst st; auto.
Qed.

(** An iteration that breaks has seen one of the three status words. *)
Lemma poll_step_breaks (r : response) (p : polled) :
  outcome (poll_step r) = Some (Ok (Some p)) ->
  last_response p = r
  /\ status_of r = Some (final_status p)
  /\ is_terminal (final_status p) = true.
Proof.
  unfold poll_step, status_of.
  destruct (loads (text r)) as [d |]; [| discriminate].
  destruct (getitem d "status") as [s | e]; [| discriminate].
  destruct (getitem d "message") as [m | e]; [| discriminate].
  destruct (is_terminal s) eqn:E; simpl; rewrite E; simpl; [| discriminate].
  intro Hp. injection Hp as Hp. subst p. simpl. auto.
Qed.

Lemma poll_loop_returns (url : string) (script : list response) (p : polled) :
  outcome (poll_loop url script) = Some (Ok p) ->
  In (last_response p) script
  /\ status_of (last_response p) = Some (final_status p)
  /\ is_terminal (final_status p) = true.
Proof.
  induction script as [| r rest IH]; [discriminate |].
  cbn [poll_loop]. rewrite outcome_bind. cbn [emit outcome snd].
  rewrite outcome_bind.
  destruct (outcome (poll_step r)) as [[[p' |] | e] |] eqn:E;
    try discriminate.
  - intro Hp. injection Hp as Hp. subst p'.
    destruct (poll_step_breaks r p E) as (Hr & Hs & Ht).
    rewrite Hr. split; [left; reflexivity | split; assumption].
  - intro Hp. destruct (IH Hp) as (Hin & Hs & Ht).
    split; [right; exact Hin | split; assumption].
Qed.

(** C1. Against a server that answers with snapshots whose status is none
    of finished, error and terminated, and then with one whose status is
    one of the three, the loop issues one GET for each of the former and
    one for the latter, and returns that snapshot without a fault; on the
    snapshots before it the loop has not ended.  Whenever the loop returns,
    on any answers of the server, the status of the snapshot it returns is
    finished, error or terminated.  With the answers running, running,
    finished these are three polls, with running, error two. *)
Theorem polling_loop (url : string) (pre : list response) (r : response)
    (rest : list response) (st : string) :
  Forall (fun x => exists s, status_of x = Some s
                             /\ s <> JString "finished"
                             /\ s <> JString "error"
                             /\ s <> JString "terminated") pre ->
  status_of r = Some (JString st) ->
  st = "finished" \/ st = "error" \/ st = "terminated" ->
  polls (poll_loop url (pre ++ r :: rest)) = S (length pre)
  /\ (exists d,
        loads (text r) = Some d /\ getitem d "status" = Ok (JString st)
        /\ outcome (poll_loop url (pre ++ r :: rest))
           = Some (Ok {| last_response := r; data := d;
                         final_status := JString st |}))
  /\ outcome (poll_loop url pre) = None
  /\ polls (poll_loop url pre) = length pre
  /\ (forall script p,
        outcome (poll_loop url script) = Some (Ok p) ->
        In (last_response p) script
        /\ status_of (last_response p) = Some (final_status p)
        /\ (final_status p = JString "finished"
            \/ final_status p = JString "error"
            \/ final_status p = JString "terminated")).
Proof.
  intros Hpre Hs Hst.
  assert (Hr : terminal r = true) by exact (terminal_literal r st Hs Hst).
  assert (Hlast : forall script p,
             outcome (poll_loop url script) = Some (Ok p) ->
             In (last_response p) script
             /\ status_of (last_response p) = Some (final_status p)
             /\ (final_status p = JString "finished"
                 \/ final_status p = JString "error"
                 \/ final_status p = JString "terminated")).
  { intros script p Hp.
    destruct (poll_loop_returns url script p Hp) as (Hin & Hsp & Ht).
    split; [exact Hin | split; [exact Hsp |]].
    now apply is_terminal_literal. }
  induction Hpre as [| x pre' Hx _ IH].
  - destruct (poll_loop_terminal url r rest Hr)
      as (Hp & d & st' & Hl & Hg & _ & Ho).
    assert (Est : st' = JString st).
    { unfold status_of in Hs. rewrite Hl, Hg in Hs.
      destruct (getitem d "message"); [| discriminate].
      now injection Hs. }
    subst st'. simpl app.
    split; [exact Hp |].
    split; [exists d; split; [exact Hl | split; [exact Hg | exact Ho]] |].
    split; [reflexivity |]. split; [reflexivity | exact Hlast].
  - destruct IH as (IHp & (d & Hl & Hg & Ho) & IHo & IHn & _).
    apply pending_literal in Hx.
    destruct (poll_loop_pending url x (pre' ++ r :: rest) Hx) as (Hp1 & Ho1).
    destruct (poll_loop_pending url x pre' Hx) as (Hp2 & Ho2).
    change ((x :: pre') ++ r :: rest)%list with (x :: (pre' ++ r :: rest))%list.
    split; [rewrite Hp1, IHp; reflexivity |].
    split; [exists d; rewrite Ho1; split; [exact Hl | split; [exact Hg | exact Ho]] |].
    split; [now rewrite Ho2 |].
    split; [simpl length; rewrite Hp2, IHn; reflexivity | exact Hlast].
Qed.

Lemma accepted_literal (status : Z) :
  status <> 200%Z -> status <> 201%Z -> accepted status = false.
Proof.
  intros H200 H201. unfold accepted. apply orb_false_iff.
  split; now apply Z.eqb_neq.
Qed.

Lemma accepted_codes (status : Z) :
  accepted status = true <-> status = 200%Z \/ status = 201%Z.
Proof.
  unfold accepted. rewrite orb_true_iff, !Z.eqb_eq. reflexivity.
Qed.

Lemma submit_rejected (g : globals) (chain : list json) (mapset : option string)
    (req : response) :
  status_code req <> 200%Z -> status_code req <> 201%Z ->
  outcome (submit g chain mapset req)
  = Some (Raise (SystemExit (post_error_text (submit_url g mapset) (text req))))
  /\ polls (submit g chain mapset req) = 0.
Proof.
  intros H200 H201. unfold submit.
  rewrite (accepted_literal _ H200 H201). split; reflexivity.
Qed.

(** C2, amended. A POST answered by a status code other than 200 and 201
    ends the run with a fatal error before any poll.  Its text is the fixed
    prefix with the URL, followed
    - by the raw body when the body does not parse;
    - by a colon, a space and the [message] field when the body parses as a
      mapping that has one;
    - by nothing when the body parses as a mapping without a [message]
      field;
    - by the raw body when the body parses as null, a truth value or a
      number;
    - when the body parses as a list, by the raw body if the text message
      is one of its elements and by nothing if it is not;
    - when the body parses as a text, by the raw body if the text message
      occurs in it and by nothing if it does not. *)
Theorem submission_rejected (g : globals) (commands : list (list string))
    (chain : list json) (mapset : option string) (req : response)
    (script : list response) :
  build_chain (PCHAIN_list g) commands = Ok chain ->
  DRY_RUN g = false ->
  status_code req <> 200%Z ->
  status_code req <> 201%Z ->
  let url := submit_url g mapset in
  let msg := post_error_text url (text req) in
  outcome (send_poll_commands g commands mapset req script)
    = Some (Raise (SystemExit msg))
  /\ polls (send_poll_commands g commands mapset req script) = 0
  /\ (loads (text req) = None ->
      msg = "ERROR posting to url '" ++ url ++ "'" ++ text req
      /\ occurs_in (text req) msg)
  /\ (forall fields m,
        loads (text req) = Some (JObject fields) ->
        assoc "message" fields = Some m ->
        msg = "ERROR posting to url '" ++ url ++ "'" ++ ": " ++ py_str m
        /\ occurs_in (py_str m) msg)
  /\ (forall fields,
        loads (text req) = Some (JObject fields) ->
        assoc "message" fields = None ->
        msg = "ERROR posting to url '" ++ url ++ "'")
  /\ (forall v,
        loads (text req) = Some v ->
        v = JNull \/ (exists b, v = JBool b) \/ (exists n, v = JNumber n) ->
        msg = "ERROR posting to url '" ++ url ++ "'" ++ text req
        /\ occurs_in (text req) msg)
  /\ (forall items,
        loads (text req) = Some (JArray items) ->
        (In (JString "message") items ->
         msg = "ERROR posting to url '" ++ url ++ "'" ++ text req
         /\ occurs_in (text req) msg)
        /\ (~ In (JString "message") items ->
            msg = "ERROR posting to url '" ++ url ++ "'"))
  /\ (forall s,
        loads (text req) = Some (JString s) ->
        (occurs_in "message" s ->
         msg = "ERROR posting to url '" ++ url ++ "'" ++ text req
         /\ occurs_in (text req) msg)
        /\ (~ occurs_in "message" s ->
            msg = "ERROR posting to url '" ++ url ++ "'")).
Proof.
  intros Hchain Hdry H200 H201 url msg.
  destruct (submit_rejected g chain mapset req H200 H201) as (Hout & Hpolls).
  assert (Hrun : send_poll_commands g commands mapset req script
                 = (trace (submit g chain mapset req),
                    Some (Raise (SystemExit msg)))).
  { unfold send_poll_commands. rewrite Hchain, Hdry.
    unfold lift. unfold bind at 1. cbv iota beta.
    destruct (submit g chain mapset req) as [t o] eqn:E.
    unfold outcome in Hout. simpl in Hout. subst o.
    unfold bind. reflexivity. }
  split; [now rewrite Hrun |].
  split; [rewrite Hrun; exact Hpolls |].
  assert (Hraw : forall body, occurs_in body
            ("ERROR posting to url '" ++ url ++ "'" ++ body)).
  { intro body. do 3 apply occurs_in_right. apply occurs_in_self. }
  subst msg. unfold post_error_text, post_error_msg.
  split; [| split; [| split; [| split; [| split]]]].
  - intro Hnone. rewrite Hnone. split; [reflexivity | apply Hraw].
  - intros fields m Hobj Hm. rewrite Hobj. unfold key_in, getitem.
    rewrite Hm. cbv beta iota. split; [reflexivity |].
    do 4 apply occurs_in_right. apply occurs_in_self.
  - intros fields Hobj Hm. rewrite Hobj. simpl. now rewrite Hm.
  - intros v Hv Hkind. rewrite Hv.
    destruct Hkind as [-> | [(b & ->) | (n & ->)]];
      (split; [reflexivity | apply Hraw]).
  - intros items Hitems. rewrite Hitems. unfold key_in, getitem.
    split.
    + intro Hin. apply existsb_is_str in Hin. rewrite Hin.
      split; [reflexivity | apply Hraw].
    + intro Hnin.
      destruct (existsb (fun v => is_str v "message") items) eqn:E;
        [| reflexivity].
      apply existsb_is_str in E. contradiction.
  - intros s Hs. rewrite Hs. unfold key_in, getitem.
    split.
    + intro Hocc. apply occurs_in_is_substring in Hocc. rewrite Hocc.
      split; [reflexivity | apply Hraw].
    + intro Hnocc. destruct (is_substring "message" s) eqn:E; [| reflexivity].
      apply is_substring_occurs in E. contradiction.
Qed.

End PollingProperties.

(** ** The result reporter *)

Lemma report_entry_well_formed (entry : json) :
  well_formed_step entry = true ->
  report_entry entry = (step_output entry, Some (Ok tt)).
Proof.
  unfold well_formed_step, step_output, step_fields, report_entry.
  unfold lift, bind, emit, ret.
  destruct (getitem entry "stdout") as [out |]; [| discriminate].
  destruct (getitem entry "stderr") as [err |];
    [| destruct (truthy out); discriminate].
  cbv beta iota.
  destruct (getitem0 err) as [first |];
    [| destruct (truthy out); discriminate].
  intros _. destruct (truthy out), (truthy first); reflexivity.
Qed.

Lemma report_entry_ill_formed (entry : json) :
  well_formed_step entry = false ->
  exists t e, report_entry entry = (t, Some (Raise e)).
Proof.
  unfold well_formed_step, step_fields, report_entry.
  unfold lift, bind, emit, ret.
  destruct (getitem entry "stdout") as [out |]; [| eauto].
  destruct (getitem entry "stderr") as [err |];
    [| destruct (truthy out); eauto].
  cbv beta iota.
  destruct (getitem0 err) as [first |]; [discriminate |].
  destruct (truthy out); eauto.
Qed.


(** The walk stops at the first step that raises. *)
Lemma for_each_raise (pre : list json) (e : json) (post : list json)
    (t : list event) (ex : exn) :
  Forall (fun x => well_formed_step x = true) pre ->
  report_entry e = (t, Some (Raise ex)) ->
  for_each (pre ++ e :: post) report_entry
  = ((flat_map step_output pre ++ t)%list, Some (Raise ex)).
Proof.
  intros Hpre He. induction Hpre as [| x pre' Hx _ IH].
  - simpl. rewrite He. reflexivity.
  - change ((x :: pre') ++ e :: post)%list with (x :: (pre' ++ e :: post))%list.
    cbn [for_each flat_map]. rewrite (report_entry_well_formed x Hx), IH.
    unfold bind. now rewrite app_assoc.
Qed.

Lemma for_each_ok (entries : list json) :
  outcome (for_each entries report_entry) = Some (Ok tt) ->
  Forall (fun e => well_formed_step e = true) entries.
Proof.
  induction entries as [| e rest IH]; intro Hok; [constructor |].
  destruct (well_formed_step e) eqn:Ew.
  - constructor; [exact Ew |]. apply IH.
    cbn [for_each] in Hok. rewrite (report_entry_well_formed e Ew) in Hok.
    unfold bind in Hok. destruct (for_each rest report_entry) as [t o].
    exact Hok.
  - destruct (report_entry_ill_formed e Ew) as (t & ex & He).
    cbn [for_each] in Hok. rewrite He in Hok. discriminate.
Qed.

(** The report of a job that was not terminated, on HTTP status 200. *)
Lemma report_walks (p : polled) (entries : list json) :
  status_code (last_response p) = 200%Z ->
  is_str (final_status p) "terminated" = false ->
  getitem (data p) "process_log" = Ok (JArray entries) ->
  report p =
  (emit (Print [AStr rule]) ;;
   for_each entries report_entry ;;
   urls <- lift (getitem (data p) "urls") ;;
   emit (PPrint urls))%io.
Proof.
  intros Hcode Hterm Hlog. unfold report.
  rewrite Hcode, Hterm, Hlog. cbn [Z.eqb Pos.eqb].
  rewrite bind_lift_ok. cbn [iter]. now rewrite bind_lift_ok.
Qed.



(** C9, amended. When the last poll was answered with the HTTP status 200
    and the job is not terminated, the reporter takes the first element of
    every step's [stderr] without a test: it ends without a fault only if
    every step has a [stderr] with a first element, so no step has the
    empty list there; a step whose [stderr] is the empty list raises
    [IndexError] after its own [stdout], and neither the later steps nor
    the [urls] are shown.  On any other HTTP status the reporter shows the
    raw body and ends without a fault, whatever the process log holds. *)
Theorem report_indexes_stderr (p : polled) (entries : list json) :
  is_str (final_status p) "terminated" = false ->
  getitem (data p) "process_log" = Ok (JArray entries) ->
  (status_code (last_response p) = 200%Z ->
   (outcome (report p) = Some (Ok tt) ->
      Forall (fun e => exists err first,
                         getitem e "stderr" = Ok err
                         /\ getitem0 err = Ok first
                         /\ err <> JArray [])
             entries)
   /\ (forall pre e post out,
         entries = (pre ++ e :: post)%list ->
         Forall (fun x => well_formed_step x = true) pre ->
         getitem e "stdout" = Ok out ->
         getitem e "stderr" = Ok (JArray []) ->
         report p
         = ((Print [AStr rule] :: flat_map step_output pre
             ++ (if truthy out then [Print [AVal out]] else []))%list,
            Some (Raise IndexError))))
  /\ (status_code (last_response p) <> 200%Z ->
      report p = ([Print [AStr rule]; Print [AStr (text (last_response p))]],
                  Some (Ok tt))).
Proof.
  intros Hterm Hlog. split.
  - intro Hcode.
    rewrite (report_walks p entries Hcode Hterm Hlog). split.
    + intro Hok.
      assert (Hwalk : outcome (for_each entries report_entry) = Some (Ok tt)).
      { unfold bind, emit in Hok.
        destruct (for_each entries report_entry) as [t [[[] | e] |]];
          simpl in Hok; try discriminate; reflexivity. }
      eapply Forall_impl; [| exact (for_each_ok entries Hwalk)].
      intros e He. unfold well_formed_step, step_fields in He.
      destruct (getitem e "stdout") as [out |]; [| discriminate].
      destruct (getitem e "stderr") as [err |]; [| discriminate].
      destruct (getitem0 err) as [first |] eqn:E0; [| discriminate].
      exists err, first.
      split; [reflexivity | split; [exact E0 | intros ->; discriminate]].
    + intros pre e post out -> Hpre Hout Herr.
      assert (He : report_entry e
                   = ((if truthy out then [Print [AVal out]] else []),
                      Some (Raise IndexError))).
      { unfold report_entry, lift, bind, emit, ret. rewrite Hout, Herr.
        destruct (truthy out); reflexivity. }
      rewrite (for_each_raise pre e post _ _ Hpre He).
      unfold bind, emit. reflexivity.
  - intro Hcode. apply Z.eqb_neq in Hcode. unfold report. now rewrite Hcode.
Qed.

Lemma report_indexes_stderr_witness :
  report bare_stderr_job
  = ([Print [AStr rule];
      Print [AVal (JString "projection: 99")];
      PPrint (JArray [JString "WARNING: region"]);
      Print [AVal (JString "half done")]],
     Some (Raise IndexError)).
Proof.
  apply (proj2 (proj1 (report_indexes_stderr bare_stderr_job _ eq_refl eq_refl)
                  eq_refl)
           [log_step "projection: 99" ["WARNING: region"]]
           (log_step "half done" [])
           [log_step "never shown" ["x"]]
           (JString "half done") eq_refl).
  - repeat constructor.
  - reflexivity.
  - reflexivity.
Defined.

(** C9 as stated fails: a job that ended with the status error, whose
    second step has the empty list as its [stderr], is reported without a
    fault when the last poll was answered with the HTTP status 400; the
    process log is not looked at. *)
Lemma report_counterexample :
  final_status bare_stderr_400 = JString "error"
  /\ status_code (last_response bare_stderr_400) = 400%Z
  /\ getitem (data bare_stderr_400) "process_log"
     = Ok (JArray [log_step "projection: 99" ["WARNING: region"];
                   log_step "half done" [];
                   log_step "never shown" ["x"]])
  /\ getitem (log_step "half done" []) "stderr" = Ok (JArray [])
  /\ report bare_stderr_400
     = ([Print [AStr rule]; Print [AStr (snapshot_text "error")]],
        Some (Ok tt)).
Proof. repeat split. Qed.

(** ** The properties on the stub *)

Lemma polling_loop_witness :
  (polls (poll_loop (H := stub_runtime) "u"
            [answer "running"; answer "running"; answer "finished"]) = 3
   /\ outcome (poll_loop (H := stub_runtime) "u"
                 [answer "running"; answer "running"; answer "finished"])
      = Some (Ok {| last_response := answer "finished";
                    data := snapshot "finished";
                    final_status := JString "finished" |}))
  /\ (polls (poll_loop (H := stub_runtime) "u"
               [answer "running"; answer "error"]) = 2
      /\ outcome (poll_loop (H := stub_runtime) "u"
                    [answer "running"; answer "error"])
         = Some (Ok {| last_response := answer "error";
                       data := snapshot "error";
                       final_status := JString "error" |})).
Proof.
  assert (Hrun : exists s,
             status_of (H := stub_runtime) (answer "running") = Some s
             /\ s <> JString "finished" /\ s <> JString "error"
             /\ s <> JString "terminated").
  { exists (JString "running"). split; [reflexivity |].
    split; [discriminate | split; discriminate]. }
  split.
  - destruct (polling_loop (H := stub_runtime) "u"
                [answer "running"; answer "running"] (answer "finished") []
                "finished"
                (Forall_cons _ Hrun (Forall_cons _ Hrun (Forall_nil _)))
                eq_refl (or_introl eq_refl))
      as (Hpolls & (d & Hd & _ & Hout) & _).
    split; [exact Hpolls |].
    injection Hd as Hd. subst d. exact Hout.
  - destruct (polling_loop (H := stub_runtime) "u"
                [answer "running"] (answer "error") [] "error"
                (Forall_cons _ Hrun (Forall_nil _))
                eq_refl (or_intror (or_introl eq_refl)))
      as (Hpolls & (d & Hd & _ & Hout) & _).
    split; [exact Hpolls |].
    injection Hd as Hd. subst d. exact Hout.
Defined.

Lemma submission_rejected_witness :
  outcome (send_poll_commands (H := stub_runtime) stub_globals [region_command]
             None {| status_code := 400; text := bad_request_text |} [])
  = Some (Raise (SystemExit
      ("ERROR posting to url '" ++ submit_url stub_globals None ++ "'"
       ++ ": bad request"))).
Proof.
  exact (proj1 (submission_rejected (H := stub_runtime) stub_globals
                  [region_command] [region_process] None
                  {| status_code := 400; text := bad_request_text |} []
                  eq_refl eq_refl
                  ltac:(discriminate) ltac:(discriminate))).
Defined.

(** C2 as stated fails: the body [{}] parses and has no [message] field,
    and the fatal text is the prefix with the URL, in which the raw body
    does not occur. *)
Lemma submission_counterexample :
  status_code rejected_empty <> 200%Z
  /\ status_code rejected_empty <> 201%Z
  /\ loads (Runtime := stub_runtime) (text rejected_empty) = Some (JObject [])
  /\ outcome (send_poll_commands (H := stub_runtime) stub_globals
                [region_command] None rejected_empty [])
     = Some (Raise (SystemExit
         "ERROR posting to url 'https://actinia.mundialis.de/api/v3/locations/nc_spm_08/processing_async_export'"))
  /\ ~ occurs_in (text rejected_empty)
         "ERROR posting to url 'https://actinia.mundialis.de/api/v3/locations/nc_spm_08/processing_async_export'".
Proof.
  split; [discriminate |]. split; [discriminate |].
  split; [reflexivity |]. split; [reflexivity |].
  intro Hocc. apply occurs_in_is_substring in Hocc.
  vm_compute in Hocc. discriminate.
Qed.

Lemma compile_outcomes_witness :
  exists msg,
    create_actinia_process (H := stub_runtime) failing_command
    = Raise (Exception msg)
    /\ occurs_in "no output" msg
    /\ occurs_in "ERROR: g.nosuch not found" msg.
Proof.
  apply (proj1 (proj2 (proj2 (compile_outcomes (H := stub_runtime))))
           failing_command "no output" "ERROR: g.nosuch not found" 1%Z).
  - discriminate.
  - reflexivity.
  - reflexivity.
  - reflexivity.
  - reflexivity.
  - discriminate.
Defined.

(** C7 as stated fails: the tool exits with the code 1, its standard
    output is not UTF-8, and the error is the one of the decoding, without
    the message that holds the two streams. *)
Lemma compile_counterexample :
  popen_communicate (Runtime := garbled_runtime) (with_json_flag failing_command)
  = Some (chr INVALID, "ERROR: g.nosuch not found", 1%Z)
  /\ 1%Z <> 0%Z
  /\ decode (Runtime := garbled_runtime) (chr INVALID) = None
  /\ create_actinia_process (H := garbled_runtime) failing_command
     = Raise UnicodeDecodeError
  /\ (forall msg, create_actinia_process (H := garbled_runtime) failing_command
                  <> Raise (Exception msg)).
Proof.
  split; [reflexivity |]. split; [discriminate |].
  split; [reflexivity |]. split; [reflexivity |].
  intros msg. discriminate.
Qed.

Lemma chain_in_order_witness :
  build_chain (H := stub_runtime) [] [region_command; region_command]
  = Ok [region_process; region_process].
Proof.
  apply (chain_in_order (H := stub_runtime)
           [region_command; region_command] [region_process; region_process]).
  repeat constructor.
Defined.

(** * Further properties *)

(** ** The tokenizer on any line *)

(** X1. A command line without quote characters is always tokenized, at
    every one of its spaces: no token holds a space or a quote, the
    normalisation changes nothing, and the tokens joined with single spaces
    are the line again. *)
Theorem plain_line_round_trip (line : string) :
  has_quote line = false ->
  exists toks,
    split_grass_command line = Ok toks
    /\ join_spaces toks = line
    /\ Forall (fun t => has_quote t = false /\ contains_char SP t = false) toks.
Proof.
  intro Hq. pose proof (plain_line_tokens line Hq) as Htoks.
  exists (re_split SP line). split; [| split].
  - unfold split_grass_command, SPACE_MATCHER_split.
    apply map_result_fixed.
    eapply Forall_impl; [| exact Htoks].
    intros t [Ht _]. now apply plain_token_unchanged.
  - apply join_re_split.
  - exact Htoks.
Qed.

Lemma plain_line_round_trip_witness :
  exists toks,
    split_grass_command region_line = Ok toks
    /\ join_spaces toks = region_line
    /\ Forall (fun t => has_quote t = false /\ contains_char SP t = false) toks.
Proof. exact (plain_line_round_trip region_line eq_refl). Defined.

(** X2. Whenever the tokenizer returns, it returns one token more than the
    line has unquoted spaces, so never the empty list; and the pieces of
    the first split, joined with single spaces, are the line. *)
Theorem token_count (line : string) (toks : list string) :
  split_grass_command line = Ok toks ->
  length toks = S (unquoted_count SP line)
  /\ toks <> []
  /\ join_spaces (SPACE_MATCHER_split line) = line.
Proof.
  intro Hsplit. unfold split_grass_command in Hsplit.
  apply map_result_length in Hsplit.
  unfold SPACE_MATCHER_split in *. rewrite re_split_length in Hsplit.
  split; [exact Hsplit | split].
  - intros ->. discriminate.
  - apply join_re_split.
Qed.

Lemma token_count_witness :
  length ["r.mapcalc"; "expression=a = b + 1"] = S (unquoted_count SP mapcalc_line)
  /\ ["r.mapcalc"; "expression=a = b + 1"] <> []
  /\ join_spaces (SPACE_MATCHER_split mapcalc_line) = mapcalc_line.
Proof. exact (token_count mapcalc_line _ eq_refl). Defined.

(** ** What the normalisation leaves of a value *)

Lemma lstrip_suffix (c : ascii) (s : string) :
  exists pre, s = pre ++ lstrip c s.
Proof.
  induction s as [| x r [pre IH]]; [now exists EmptyString |].
  simpl. destruct (Ascii.eqb x c).
  - exists (String x pre). simpl. now rewrite <- IH.
  - now exists EmptyString.
Qed.

Lemma lstrip_start (c : ascii) (s : string) :
  startswith_char c (lstrip c s) = false.
Proof.
  induction s as [| x r IH]; [reflexivity |].
  simpl. destruct (Ascii.eqb x c) eqn:E; [exact IH | simpl; exact E].
Qed.

Lemma rstrip_prefix (c : ascii) (s : string) :
  exists post, s = rstrip c s ++ post.
Proof.
  induction s as [| x r [post IH]]; [now exists EmptyString |].
  rewrite rstrip_cons. destruct (rstrip c r) as [| y r'] eqn:E.
  - destruct (Ascii.eqb x c).
    + now exists (String x r).
    + exists r. reflexivity.
  - exists post. simpl. simpl in IH. now rewrite <- IH.
Qed.

Lemma rstrip_end (c : ascii) (s : string) : last_char (rstrip c s) <> Some c.
Proof.
  induction s as [| x r IH]; [discriminate |].
  rewrite rstrip_cons. destruct (rstrip c r) as [| y r'] eqn:E.
  - destruct (Ascii.eqb x c) eqn:Ex; [discriminate |].
    simpl. intro Hl. inversion Hl; subst.
    rewrite Ascii.eqb_refl in Ex. discriminate.
  - rewrite last_char_cons by discriminate. exact IH.
Qed.

Lemma rstrip_start (c d : ascii) (s : string) :
  startswith_char d s = false -> startswith_char d (rstrip c s) = false.
Proof.
  destruct s as [| x r]; [reflexivity |].
  rewrite rstrip_cons. simpl. intro Hx.
  destruct (rstrip c r); [destruct (Ascii.eqb x c) |]; simpl; auto.
Qed.

Lemma strip_occurs (c : ascii) (s : string) : occurs_in (strip c s) s.
Proof.
  unfold strip. destruct (lstrip_suffix c s) as [pre Hpre].
  destruct (rstrip_prefix c (lstrip c s)) as [post Hpost].
  exists pre, post. now rewrite <- Hpost.
Qed.

Lemma occurs_in_trans (a b c : string) :
  occurs_in a b -> occurs_in b c -> occurs_in a c.
Proof.
  intros (p1 & q1 & ->) (p2 & q2 & ->).
  exists (p2 ++ p1), (q1 ++ q2). now rewrite !append_assoc.
Qed.

(** X3. A token that the loop body lets through is either unchanged or an
    option [par=val] rewritten with the same key and a value that is a
    contiguous part of [val] and neither starts nor ends with a single
    quote. *)
Theorem normalized_value (token t : string) :
  normalize_token token = Ok t ->
  t = token
  \/ exists par val v,
       token = par ++ String EQ val
       /\ t = par ++ String EQ v
       /\ occurs_in v val
       /\ startswith_char SQ v = false
       /\ last_char v <> Some SQ.
Proof.
  unfold normalize_token.
  destruct (contains_char EQ token && has_quote token);
    [| intro Hn; inversion Hn; now left].
  pose proof (join_re_split EQ token) as Hjoin.
  unfold EQUALS_MATCHER_split.
  destruct (re_split EQ token) as [| par [| val [| x rest]]];
    try discriminate.
  destruct (last_char val) as [l |]; [| discriminate].
  destruct (startswith_char l val); intro Hn; inversion Hn; [| now left].
  right. exists par, val, (strip SQ (strip DQ val)).
  cbn [join] in Hjoin. repeat split.
  - now rewrite Hjoin.
  - eapply occurs_in_trans; apply strip_occurs.
  - unfold strip at 1. apply rstrip_start, lstrip_start.
  - unfold strip at 1. apply rstrip_end.
Qed.

Lemma normalized_value_witness :
  "x=a" = layered_token
  \/ exists par val v,
       layered_token = par ++ String EQ val
       /\ "x=a" = par ++ String EQ v
       /\ occurs_in v val
       /\ startswith_char SQ v = false
       /\ last_char v <> Some SQ.
Proof. exact (normalized_value layered_token "x=a" eq_refl). Defined.

(** ** The compiler: when it returns and how it fails *)

Lemma mem_app_r (x : string) (xs : list string) : mem x (xs ++ [x]) = true.
Proof.
  unfold mem. rewrite existsb_app. simpl.
  rewrite String.eqb_refl. now rewrite orb_true_r.
Qed.

Lemma json_flag_mem (command : list string) :
  mem json_flag (with_json_flag command) = true.
Proof.
  unfold with_json_flag. destruct (mem json_flag command) eqn:E;
    [exact E | apply mem_app_r].
Qed.

(** X4. The structured-output flag is among the arguments after the step,
    added at the end when it was missing and at most once: a command that
    has it is left as it is, and the step done twice is the step done
    once. *)
Theorem json_flag_once (command : list string) :
  mem json_flag (with_json_flag command) = true
  /\ with_json_flag (with_json_flag command) = with_json_flag command
  /\ (mem json_flag command = true -> with_json_flag command = command)
  /\ (mem json_flag command = false ->
      with_json_flag command = (command ++ [json_flag])%list).
Proof.
  unfold with_json_flag.
  destruct (mem json_flag command) eqn:E.
  - rewrite E. repeat split; auto; discriminate.
  - rewrite mem_app_r. repeat split; auto using mem_app_r; discriminate.
Qed.

Lemma json_flag_once_witness :
  with_json_flag region_command = (region_command ++ [json_flag])%list.
Proof.
  exact (proj2 (proj2 (proj2 (json_flag_once region_command))) eq_refl).
Defined.

Section CompilerProperties.
Context `{Runtime}.

(** X5. When the compiler returns a value, either the command was empty
    and the value is [None], or the command had no help flag, the tool was
    run on the command with the structured-output flag, it exited with
    code 0, both streams decoded, and the value is the parsed standard
    output. *)
Theorem compile_success (command : list string) (p : json) :
  create_actinia_process command = Ok p ->
  (command = [] /\ p = JNull)
  \/ (command <> []
      /\ mem help_flag command = false
      /\ mem json_flag (with_json_flag command) = true
      /\ exists out err stdout_buff stderr_buff,
           popen_communicate (with_json_flag command) = Some (out, err, 0%Z)
           /\ decode out = Some stdout_buff
           /\ decode err = Some stderr_buff
           /\ loads stdout_buff = Some p).
Proof.
  unfold create_actinia_process.
  destruct command as [| c rest]; [intro Hp; inversion Hp; now left |].
  destruct (mem help_flag (c :: rest)) eqn:Eh; [discriminate |].
  destruct (popen_communicate (with_json_flag (c :: rest)))
    as [[[out err] rc] |] eqn:Ep; [| discriminate].
  destruct (decode out) as [so |] eqn:Eo; [| discriminate].
  destruct (decode err) as [se |] eqn:Ee; [| discriminate].
  destruct (Z.eqb rc 0) eqn:Erc; simpl; [| discriminate].
  destruct (loads so) as [v |] eqn:El; [| discriminate].
  intro Hp. inversion Hp; subst. right.
  apply Z.eqb_eq in Erc. subst rc.
  split; [discriminate | split; [reflexivity | split]].
  - apply (json_flag_mem (c :: rest)).
  - exists out, err, so, se. auto.
Qed.

Lemma nul_in_command (command : list string) :
  existsb (contains_char NUL) (with_json_flag command) = true ->
  exists token, In token command /\ contains_char NUL token = true.
Proof.
  intro Hn. apply existsb_exists in Hn. destruct Hn as (t & Hin & Ht).
  exists t. split; [| exact Ht].
  unfold with_json_flag in Hin. destruct (mem json_flag command); [exact Hin |].
  apply in_app_or in Hin. destruct Hin as [Hin | [<- | []]]; [exact Hin |].
  discriminate Ht.
Qed.

(** X6. The compiler fails in these ways and no other: with the help flag
    among the tokens; when [Popen] raises, which is [ValueError] when a
    token holds a null character and [OSError] when the tool cannot be
    started; when one of the streams does not decode; when the tool exits
    with a code other than 0; and when it exits with 0 and its output does
    not parse. *)
Theorem compile_failure (command : list string) (e : exn) :
  create_actinia_process command = Raise e ->
  (mem help_flag command = true /\ exists msg, e = Exception msg)
  \/ (mem help_flag command = false /\
      ((popen_communicate (with_json_flag command) = None
        /\ (e = OSError
            \/ (e = ValueError
                /\ exists token,
                     In token command /\ contains_char NUL token = true)))
       \/ exists out err returncode,
            popen_communicate (with_json_flag command)
              = Some (out, err, returncode)
            /\ ((e = UnicodeDecodeError
                 /\ (decode out = None \/ decode err = None))
                \/ (returncode <> 0%Z /\ exists msg, e = Exception msg)
                \/ (returncode = 0%Z /\ e = JSONDecodeError
                    /\ exists stdout_buff,
                         decode out = Some stdout_buff
                         /\ loads stdout_buff = None)))).
Proof.
  unfold create_actinia_process.
  destruct command as [| c rest]; [discriminate |].
  destruct (mem help_flag (c :: rest)) eqn:Eh.
  - intro He. inversion He. left. eauto.
  - intro He. right. split; [reflexivity |].
    destruct (popen_communicate (with_json_flag (c :: rest)))
      as [[[out err] rc] |] eqn:Ep.
    + right. exists out, err, rc. split; [reflexivity |].
      destruct (decode out) as [so |] eqn:Eo;
        [| inversion He; left; auto].
      destruct (decode err) as [se |] eqn:Ee;
        [| inversion He; left; auto].
      destruct (Z.eqb rc 0) eqn:Erc; simpl in He.
      * apply Z.eqb_eq in Erc.
        destruct (loads so) eqn:El; [discriminate |].
        inversion He. right. right. eauto.
      * apply Z.eqb_neq in Erc. inversion He. right. left. eauto.
    + left. split; [reflexivity |].
      destruct (existsb (contains_char NUL) (with_json_flag (c :: rest)))
        eqn:En; inversion He; [right | now left].
      split; [reflexivity |]. now apply nul_in_command.
Qed.

End CompilerProperties.

Lemma compile_success_witness :
  (region_command = [] /\ region_process = JNull)
  \/ (region_command <> []
      /\ mem help_flag region_command = false
      /\ mem json_flag (with_json_flag region_command) = true
      /\ exists out err stdout_buff stderr_buff,
           popen_communicate (Runtime := stub_runtime)
             (with_json_flag region_command) = Some (out, err, 0%Z)
           /\ decode (Runtime := stub_runtime) out = Some stdout_buff
           /\ decode (Runtime := stub_runtime) err = Some stderr_buff
           /\ loads (Runtime := stub_runtime) stdout_buff = Some region_process).
Proof.
  exact (compile_success (H := stub_runtime) region_command region_process
           eq_refl).
Defined.

Lemma compile_failure_witness :
  exists e,
    create_actinia_process (H := stub_runtime) ["g.region"; "--help"] = Raise e
    /\ mem help_flag ["g.region"; "--help"] = true.
Proof.
  eexists. split; [reflexivity |].
  destruct (compile_failure (H := stub_runtime) ["g.region"; "--help"] _ eq_refl)
    as [[Hh _] | [Hh _]]; [exact Hh | discriminate Hh].
Defined.

(** ** Traces of composed runs *)

Lemma io_eta {A} (m : io A) : m = (trace m, outcome m).
Proof. now destruct m. Qed.

Lemma Forall_trace_bind {A B} (Q : event -> Prop) (m : io A) (k : A -> io B) :
  Forall Q (trace m) -> (forall a, Forall Q (trace (k a))) ->
  Forall Q (trace (bind m k)).
Proof.
  intros Hm Hk. rewrite trace_bind. apply Forall_app. split; [exact Hm |].
  destruct (outcome m) as [[a | e] |]; auto.
Qed.

Lemma Forall_trace_lift {A} (Q : event -> Prop) (r : result A) :
  Forall Q (trace (lift r)).
Proof. constructor. Qed.

Lemma filter_none {A} (f : A -> bool) (xs : list A) :
  Forall (fun x => f x = false) xs -> filter f xs = [].
Proof.
  induction 1 as [| x rest Hx _ IH]; [reflexivity |].
  simpl. now rewrite Hx.
Qed.

(** The reporter only prints. *)
Lemma report_entry_prints (entry : json) :
  Forall (fun e => is_request e = false) (trace (report_entry entry)).
Proof.
  unfold report_entry.
  apply Forall_trace_bind; [apply Forall_trace_lift | intro out].
  apply Forall_trace_bind.
  { destruct (truthy out); repeat constructor. }
  intros _. apply Forall_trace_bind; [apply Forall_trace_lift | intro err].
  apply Forall_trace_bind; [apply Forall_trace_lift | intro first].
  destruct (truthy first); repeat constructor.
Qed.

Lemma for_each_prints (entries : list json) :
  Forall (fun e => is_request e = false)
         (trace (for_each entries report_entry)).
Proof.
  induction entries as [| x rest IH]; [constructor |].
  cbn [for_each]. apply Forall_trace_bind; [apply report_entry_prints |].
  intros _. exact IH.
Qed.

Lemma report_prints (p : polled) :
  Forall (fun e => is_request e = false) (trace (report p)).
Proof.
  unfold report. apply Forall_trace_bind; [repeat constructor | intros _].
  destruct (Z.eqb (status_code (last_response p)) 200);
    [| repeat constructor].
  destruct (is_str (final_status p) "terminated"); [repeat constructor |].
  apply Forall_trace_bind; [apply Forall_trace_lift | intro log].
  apply Forall_trace_bind; [apply Forall_trace_lift | intro entries].
  apply Forall_trace_bind; [apply for_each_prints | intros _].
  apply Forall_trace_bind; [apply Forall_trace_lift | intro urls].
  repeat constructor.
Qed.

Section TrafficProperties.
Context `{Runtime}.

(** An iteration of the loop neither posts nor polls by itself. *)
Lemma poll_step_quiet (r : response) :
  Forall (fun e => is_request e = false) (trace (poll_step r)).
Proof.
  unfold poll_step. destruct (loads (text r)) as [d |]; [| constructor].
  apply Forall_trace_bind; [apply Forall_trace_lift | intro status].
  apply Forall_trace_bind; [repeat constructor | intros _].
  apply Forall_trace_bind; [apply Forall_trace_lift | intro message].
  apply Forall_trace_bind; [repeat constructor | intros _].
  destruct (is_terminal status); [constructor |].
  apply Forall_trace_bind; [repeat constructor | intros _]. constructor.
Qed.

(** The loop never posts, and its GETs all go to the status URL. *)
Lemma poll_loop_requests (url : string) (script : list response) :
  Forall (fun e => is_request e = true -> e = Get url)
         (trace (poll_loop url script)).
Proof.
  induction script as [| r rest IH]; [constructor |].
  cbn [poll_loop].
  apply Forall_trace_bind; [repeat constructor | intros _].
  apply Forall_trace_bind.
  - eapply Forall_impl; [| apply poll_step_quiet].
    intros e He Hreq. rewrite He in Hreq. discriminate.
  - intros [p |]; [constructor | exact IH].
Qed.

Lemma poll_requests (poll_url : json) (script : list response) :
  Forall (fun e => is_post e = false) (trace (poll poll_url script)).
Proof.
  unfold poll. destruct poll_url; try constructor.
  eapply Forall_impl; [| apply poll_loop_requests].
  intros e He. destruct e; try reflexivity.
  specialize (He eq_refl). discriminate.
Qed.

Lemma is_request_post (e : event) : is_request e = false -> is_post e = false.
Proof. unfold is_request. now destruct (is_post e). Qed.

(** The submission posts once, whatever the answer is. *)
Lemma submit_posts (g : globals) (chain : list json) (mapset : option string)
    (req : response) :
  filter is_post (trace (submit g chain mapset req))
  = [Post (submit_url g mapset) (PCHAIN_of chain)]
  /\ filter is_get (trace (submit g chain mapset req)) = [].
Proof.
  unfold submit. rewrite !trace_bind. cbn [emit trace outcome fst snd].
  destruct (accepted (status_code req)); cbn [ret fatal raise trace outcome fst snd];
    [| split; reflexivity].
  destruct (loads (text req)) as [d |]; [| split; reflexivity].
  rewrite !trace_bind. cbn [lift trace outcome fst snd].
  destruct (getitem d "status") as [st |]; [| split; reflexivity].
  rewrite !trace_bind. cbn [emit lift trace outcome fst snd].
  destruct (getitem d "urls") as [urls |]; [| split; reflexivity].
  rewrite !trace_bind. cbn [emit lift trace outcome fst snd].
  destruct (getitem urls "status") as [u |]; split; reflexivity.
Qed.

End TrafficProperties.

(** ** The whole run of [send_poll_commands] *)

Section RunProperties.
Context `{Runtime}.

Lemma build_chain_raise (chain : list json) (pre : list (list string))
    (ops : list json) (c : list string) (post : list (list string)) (e : exn) :
  Forall2 (fun c p => create_actinia_process c = Ok p) pre ops ->
  create_actinia_process c = Raise e ->
  build_chain chain (pre ++ c :: post) = Raise e.
Proof.
  intros Hpre Hc. revert chain.
  induction Hpre as [| x p xs ps Hx _ IH]; intro chain; simpl.
  - now rewrite Hc.
  - rewrite Hx. simpl. apply IH.
Qed.

(** X7. When the compiler fails on one of the commands, after commands
    that compiled, the run ends with that error and has neither printed
    nor sent anything: no part of the chain is submitted. *)
Theorem failed_compile_sends_nothing (g : globals) (pre : list (list string))
    (ops : list json) (c : list string) (post : list (list string)) (e : exn)
    (mapset : option string) (req : response) (script : list response) :
  Forall2 (fun c p => create_actinia_process c = Ok p) pre ops ->
  create_actinia_process c = Raise e ->
  send_poll_commands g (pre ++ c :: post) mapset req script
  = ([], Some (Raise e)).
Proof.
  intros Hpre Hc. unfold send_poll_commands.
  now rewrite (build_chain_raise _ pre ops c post e Hpre Hc).
Qed.

(** X8. When the commands compile, a dry run prints the serialized chain
    and sends nothing; any other run starts with its three lines and one
    POST of the whole chain to the submission URL, and never posts again. *)
Theorem one_submission (g : globals) (commands : list (list string))
    (chain : list json) (mapset : option string) (req : response)
    (script : list response) :
  build_chain (PCHAIN_list g) commands = Ok chain ->
  (DRY_RUN g = true ->
     send_poll_commands g commands mapset req script
     = ([Print [AStr (dumps (PCHAIN_of chain))]], Some (Ok tt)))
  /\ (DRY_RUN g = false ->
      filter is_post (trace (send_poll_commands g commands mapset req script))
      = [Post (submit_url g mapset) (PCHAIN_of chain)]
      /\ exists t,
           trace (send_poll_commands g commands mapset req script)
           = ([Print [AStr (submit_url g mapset)];
               Print [AVal (PCHAIN_of chain)];
               Print [AStr (ACTINIA_USER g)];
               Post (submit_url g mapset) (PCHAIN_of chain)] ++ t)%list).
Proof.
  intro Hchain. unfold send_poll_commands. rewrite Hchain, bind_lift_ok.
  split; intro Hdry; rewrite Hdry; [reflexivity |]. split.
  - rewrite trace_bind, filter_app.
    rewrite (proj1 (submit_posts g chain mapset req)).
    destruct (outcome (submit g chain mapset req)) as [[u | e] |];
      try reflexivity.
    rewrite trace_bind, filter_app.
    rewrite (filter_none is_post (trace (poll u script)))
      by apply poll_requests.
    destruct (outcome (poll u script)) as [[p | e] |]; try reflexivity.
    rewrite (filter_none is_post (trace (report p))); [reflexivity |].
    eapply Forall_impl; [| apply report_prints].
    intros e. apply is_request_post.
  - rewrite trace_bind. unfold submit at 1.
    rewrite !trace_bind. cbn [emit trace outcome fst snd].
    eexists. cbn [app]. reflexivity.
Qed.

(** X9. Polling starts only on an answer with status code 200 or 201
    whose body parses and has [status] and [urls.status]; the submission
    itself never polls; and an answer with status code 200 or 201 whose
    body does not parse is fatal with the raw body as the message. *)
Theorem polling_starts_only_if (g : globals) (chain : list json)
    (mapset : option string) (req : response) :
  polls (submit g chain mapset req) = 0
  /\ (forall poll_url,
        outcome (submit g chain mapset req) = Some (Ok poll_url) ->
        (status_code req = 200%Z \/ status_code req = 201%Z)
        /\ exists acc status urls,
             loads (text req) = Some acc
             /\ getitem acc "status" = Ok status
             /\ getitem acc "urls" = Ok urls
             /\ getitem urls "status" = Ok poll_url)
  /\ (status_code req = 200%Z \/ status_code req = 201%Z ->
      loads (text req) = None ->
      outcome (submit g chain mapset req)
      = Some (Raise (SystemExit (text req)))).
Proof.
  split; [| split].
  - unfold polls. now rewrite (proj2 (submit_posts g chain mapset req)).
  - intros u. unfold submit. rewrite !outcome_bind.
    cbn [emit outcome snd].
    destruct (accepted (status_code req)) eqn:Eacc;
      cbn [ret fatal raise outcome snd]; [| discriminate].
    apply accepted_codes in Eacc.
    destruct (loads (text req)) as [d |]; [| discriminate].
    rewrite !outcome_bind. cbn [lift outcome snd].
    destruct (getitem d "status") as [st |] eqn:Es; [| discriminate].
    rewrite !outcome_bind. cbn [emit lift outcome snd].
    destruct (getitem d "urls") as [urls |] eqn:Eu; [| discriminate].
    rewrite !outcome_bind. cbn [emit lift outcome snd].
    destruct (getitem urls "status") as [u' |] eqn:Ev; [| discriminate].
    rewrite !outcome_bind. cbn [emit ret outcome snd].
    intro Hu. inversion Hu; subst.
    split; [exact Eacc |]. exists d, st, urls. auto.
  - intros Hcode Hnone. apply accepted_codes in Hcode.
    unfold submit. rewrite !outcome_bind.
    cbn [emit outcome snd]. rewrite Hcode. cbn [ret outcome snd].
    now rewrite Hnone.
Qed.

(** The trace of an iteration on a snapshot that is not terminal. *)
Lemma poll_step_pending_trace (r : response) :
  pending r = true ->
  exists status message,
    poll_step r
    = ([Print [AStr "Resource poll status:"; AVal status];
        Print [AVal message]; Sleep 1],
       Some (Ok None)).
Proof.
  unfold pending, status_of, poll_step.
  destruct (loads (text r)) as [d |]; [| discriminate].
  destruct (getitem d "status") as [s |]; [| discriminate].
  destruct (getitem d "message") as [m |]; [| discriminate].
  intro Hp. apply negb_true_iff in Hp.
  exists s, m. unfold lift, bind, emit, ret. now rewrite Hp.
Qed.

Lemma poll_loop_cons_pending (url : string) (r : response)
    (rest : list response) :
  pending r = true ->
  exists status message,
    poll_loop url (r :: rest)
    = ((Get url :: Print [AStr "Resource poll status:"; AVal status]
        :: Print [AVal message] :: Sleep 1 :: trace (poll_loop url rest))%list,
       outcome (poll_loop url rest)).
Proof.
  intro Hp. destruct (poll_step_pending_trace r Hp) as (s & m & Hstep).
  exists s, m. cbn [poll_loop]. rewrite Hstep.
  unfold bind, emit. now destruct (poll_loop url rest).
Qed.

(** X10. A poll response whose body does not parse ends the loop with the
    error of the parser at once: it is not polled again, and the responses
    after it are never asked for. *)
Theorem poll_parse_failure (url : string) (pre : list response) (r : response)
    (rest : list response) :
  Forall (fun x => pending x = true) pre ->
  loads (text r) = None ->
  outcome (poll_loop url (pre ++ r :: rest)) = Some (Raise JSONDecodeError)
  /\ polls (poll_loop url (pre ++ r :: rest)) = S (length pre).
Proof.
  intros Hpre Hr. induction Hpre as [| x pre' Hx _ IH].
  - simpl app. cbn [poll_loop]. unfold poll_step. rewrite Hr.
    split; reflexivity.
  - change ((x :: pre') ++ r :: rest)%list with (x :: (pre' ++ r :: rest))%list.
    destruct (poll_loop_cons_pending url x (pre' ++ r :: rest) Hx)
      as (s & m & ->).
    destruct IH as [IHo IHp]. split; [exact IHo |].
    unfold polls, trace in *. simpl. now rewrite IHp.
Qed.

(** X11. Every snapshot must have a [message]: a response with a status,
    even a terminal one, and no [message] ends the loop with the error of
    the lookup after the status line has been printed. *)
Theorem snapshot_needs_message (url : string) (pre : list response)
    (r : response) (rest : list response) (d status : json) (e : exn) :
  Forall (fun x => pending x = true) pre ->
  loads (text r) = Some d ->
  getitem d "status" = Ok status ->
  getitem d "message" = Raise e ->
  outcome (poll_loop url (pre ++ r :: rest)) = Some (Raise e)
  /\ polls (poll_loop url (pre ++ r :: rest)) = S (length pre)
  /\ trace (poll_loop url [r])
     = [Get url; Print [AStr "Resource poll status:"; AVal status]].
Proof.
  intros Hpre Hd Hs Hm.
  assert (Hone : forall tail, poll_loop url (r :: tail)
            = ([Get url; Print [AStr "Resource poll status:"; AVal status]],
               Some (Raise e))).
  { intro tail. cbn [poll_loop]. unfold poll_step. rewrite Hd, Hs, Hm.
    reflexivity. }
  split; [| split]; [| | now rewrite Hone].
  - induction Hpre as [| x pre' Hx _ IH]; [simpl app; now rewrite Hone |].
    change ((x :: pre') ++ r :: rest)%list with (x :: (pre' ++ r :: rest))%list.
    destruct (poll_loop_cons_pending url x (pre' ++ r :: rest) Hx)
      as (s & m & ->). exact IH.
  - induction Hpre as [| x pre' Hx _ IH]; [simpl app; now rewrite Hone |].
    change ((x :: pre') ++ r :: rest)%list with (x :: (pre' ++ r :: rest))%list.
    destruct (poll_loop_cons_pending url x (pre' ++ r :: rest) Hx)
      as (s & m & ->).
    unfold polls, trace in *. simpl. now rewrite IH.
Qed.

(** X12. Up to the terminal snapshot the loop pauses once, for one second,
    after every snapshot that is not terminal and not after the terminal
    one, and every GET goes to the same status URL. *)
Theorem one_sleep_per_pending (url : string) (pre : list response)
    (r : response) (rest : list response) :
  Forall (fun x => pending x = true) pre ->
  terminal r = true ->
  filter is_sleep (trace (poll_loop url (pre ++ r :: rest)))
  = repeat (Sleep 1) (length pre)
  /\ filter is_get (trace (poll_loop url (pre ++ r :: rest)))
     = repeat (Get url) (S (length pre)).
Proof.
  intros Hpre Hr. induction Hpre as [| x pre' Hx _ IH].
  - simpl app. cbn [poll_loop].
    unfold terminal, status_of in Hr. unfold poll_step.
    destruct (loads (text r)) as [d |]; [| discriminate].
    destruct (getitem d "status") as [s |]; [| discriminate].
    destruct (getitem d "message") as [m |]; [| discriminate].
    unfold lift, bind, emit, ret. rewrite Hr. split; reflexivity.
  - change ((x :: pre') ++ r :: rest)%list with (x :: (pre' ++ r :: rest))%list.
    destruct (poll_loop_cons_pending url x (pre' ++ r :: rest) Hx)
      as (s & m & ->).
    destruct IH as [IHs IHg]. unfold trace in *. simpl.
    rewrite IHs, IHg. split; reflexivity.
Qed.

Lemma polling_count (url : string) (pre : list response) (r : response)
    (rest : list response) :
  Forall (fun x => pending x = true) pre ->
  terminal r = true ->
  length (filter is_get (trace (poll_loop url (pre ++ r :: rest))))
  = S (length pre).
Proof.
  intros Hpre Hr. induction Hpre as [| x pre' Hx _ IH].
  - exact (proj1 (poll_loop_terminal url r rest Hr)).
  - change ((x :: pre') ++ r :: rest)%list with (x :: (pre' ++ r :: rest))%list.
    destruct (poll_loop_pending url x (pre' ++ r :: rest) Hx) as (Hp & _).
    unfold polls in Hp. rewrite Hp. now rewrite IH.
Qed.

(** X13. From the acceptance to the report: on an accepted answer with a
    status URL, followed by snapshots that are not terminal and then a
    terminal one, the run is the submission, the loop up to the terminal
    snapshot and the report of that snapshot, one after the other; it ends
    as the report ends and has polled once for every snapshot. *)
Theorem run_composes (g : globals) (commands : list (list string))
    (chain : list json) (mapset : option string) (req : response)
    (acc status0 urls : json) (u : string)
    (pre : list response) (r : response) (rest : list response) :
  build_chain (PCHAIN_list g) commands = Ok chain ->
  DRY_RUN g = false ->
  accepted (status_code req) = true ->
  loads (text req) = Some acc ->
  getitem acc "status" = Ok status0 ->
  getitem acc "urls" = Ok urls ->
  getitem urls "status" = Ok (JString u) ->
  Forall (fun x => pending x = true) pre ->
  terminal r = true ->
  exists p,
    outcome (poll_loop u (pre ++ r :: rest)) = Some (Ok p)
    /\ last_response p = r
    /\ outcome (send_poll_commands g commands mapset req (pre ++ r :: rest))
       = outcome (report p)
    /\ trace (send_poll_commands g commands mapset req (pre ++ r :: rest))
       = (trace (submit g chain mapset req)
          ++ trace (poll_loop u (pre ++ r :: rest))
          ++ trace (report p))%list
    /\ polls (send_poll_commands g commands mapset req (pre ++ r :: rest))
       = S (length pre).
Proof.
  intros Hchain Hdry Hacc Hl Hs Hu Hus Hpre Hr.
  assert (Hsub : outcome (submit g chain mapset req) = Some (Ok (JString u))).
  { unfold submit. rewrite !outcome_bind. cbn [emit outcome snd].
    rewrite Hacc. cbn [ret outcome snd]. rewrite Hl.
    rewrite !outcome_bind. cbn [lift outcome snd]. rewrite Hs.
    rewrite !outcome_bind. cbn [emit lift outcome snd]. rewrite Hu.
    rewrite !outcome_bind. cbn [emit lift outcome snd]. rewrite Hus.
    rewrite !outcome_bind. reflexivity. }
  assert (Hloop : exists p,
            outcome (poll_loop u (pre ++ r :: rest)) = Some (Ok p)
            /\ last_response p = r).
  { clear Hsub. induction Hpre as [| x pre' Hx _ IH].
    - destruct (poll_loop_terminal u r rest Hr)
        as (_ & d & st & _ & _ & _ & Ho).
      simpl app. rewrite Ho. eexists. split; reflexivity.
    - change ((x :: pre') ++ r :: rest)%list
        with (x :: (pre' ++ r :: rest))%list.
      destruct (poll_loop_pending u x (pre' ++ r :: rest) Hx) as (_ & ->).
      exact IH. }
  destruct Hloop as (p & Hp & Hlast). exists p.
  assert (Hrun : send_poll_commands g commands mapset req (pre ++ r :: rest)
                 = bind (submit g chain mapset req)
                        (fun poll_url =>
                           bind (poll poll_url (pre ++ r :: rest)) report)).
  { unfold send_poll_commands. now rewrite Hchain, bind_lift_ok, Hdry. }
  split; [exact Hp | split; [exact Hlast |]].
  assert (Htrace : trace (send_poll_commands g commands mapset req
                            (pre ++ r :: rest))
       = (trace (submit g chain mapset req)
          ++ trace (poll_loop u (pre ++ r :: rest))
          ++ trace (report p))%list).
  { rewrite Hrun, trace_bind, Hsub. cbn [poll].
    now rewrite trace_bind, Hp. }
  split; [| split; [exact Htrace |]].
  - rewrite Hrun, outcome_bind, Hsub. cbn [poll].
    now rewrite outcome_bind, Hp.
  - unfold polls. rewrite Htrace, !filter_app.
    rewrite (proj2 (submit_posts g chain mapset req)).
    rewrite (filter_none is_get (trace (report p))).
    + rewrite app_nil_r. simpl app.
      exact (polling_count u pre r rest Hpre Hr).
    + eapply Forall_impl; [| apply report_prints].
      intros e. unfold is_request. destruct (is_post e); [discriminate | auto].
Qed.

End RunProperties.

Lemma failed_compile_sends_nothing_witness :
  exists e,
    send_poll_commands (H := stub_runtime) stub_globals
      [region_command; failing_command] None (answer "running") []
    = ([], Some (Raise e)).
Proof.
  eexists.
  apply (failed_compile_sends_nothing (H := stub_runtime) stub_globals
           [region_command] [region_process] failing_command []).
  - repeat constructor.
  - reflexivity.
Defined.

Lemma one_submission_witness :
  send_poll_commands (H := stub_runtime) dry_globals [region_command] None
    html_answer []
  = ([Print [AStr (dumps (Runtime := stub_runtime)
                     (PCHAIN_of [region_process]))]],
     Some (Ok tt)).
Proof.
  exact (proj1 (one_submission (H := stub_runtime) dry_globals [region_command]
                  [region_process] None html_answer [] eq_refl) eq_refl).
Defined.

Lemma polling_starts_only_if_witness :
  outcome (submit (H := stub_runtime) stub_globals [region_process] None
             {| status_code := 200; text := "<html>" |})
  = Some (Raise (SystemExit "<html>")).
Proof.
  exact (proj2 (proj2 (polling_starts_only_if (H := stub_runtime) stub_globals
                         [region_process] None
                         {| status_code := 200; text := "<html>" |}))
           (or_introl eq_refl) eq_refl).
Defined.

Lemma poll_parse_failure_witness :
  outcome (poll_loop (H := stub_runtime) status_url
             [answer "running"; html_answer; answer "finished"])
  = Some (Raise JSONDecodeError)
  /\ polls (poll_loop (H := stub_runtime) status_url
              [answer "running"; html_answer; answer "finished"]) = 2.
Proof.
  apply (poll_parse_failure (H := stub_runtime) status_url
           [answer "running"] html_answer [answer "finished"]).
  - repeat constructor.
  - reflexivity.
Defined.

Lemma snapshot_needs_message_witness :
  outcome (poll_loop (H := stub_service) status_url
             [answer "running";
              {| status_code := 200; text := status_only_text |}])
  = Some (Raise (KeyError "message")).
Proof.
  apply (snapshot_needs_message (H := stub_service) status_url
           [answer "running"]
           {| status_code := 200; text := status_only_text |} []
           (JObject [("status", JString "finished")]) (JString "finished")).
  - repeat constructor.
  - reflexivity.
  - reflexivity.
  - reflexivity.
Defined.

Lemma one_sleep_per_pending_witness :
  filter is_sleep
    (trace (poll_loop (H := stub_runtime) status_url
              [answer "running"; answer "running"; answer "finished"]))
  = [Sleep 1; Sleep 1]
  /\ filter is_get
       (trace (poll_loop (H := stub_runtime) status_url
                 [answer "running"; answer "running"; answer "finished"]))
     = [Get status_url; Get status_url; Get status_url].
Proof.
  apply (one_sleep_per_pending (H := stub_runtime) status_url
           [answer "running"; answer "running"] (answer "finished") []).
  - repeat constructor.
  - reflexivity.
Defined.

Lemma run_composes_witness :
  exists p,
    outcome (poll_loop (H := stub_service) status_url
               [answer "running"; answer "error"]) = Some (Ok p)
    /\ last_response p = answer "error"
    /\ polls (send_poll_commands (H := stub_service) stub_globals
                [region_command] None
                {| status_code := 200; text := accepted_text |}
                [answer "running"; answer "error"]) = 2.
Proof.
  destruct (run_composes (H := stub_service) stub_globals [region_command]
              [region_process] None
              {| status_code := 200; text := accepted_text |}
              accepted_payload (JString "accepted")
              (JObject [("status", JString status_url)]) status_url
              [answer "running"] (answer "error") []
              eq_refl eq_refl eq_refl eq_refl eq_refl eq_refl eq_refl
              ltac:(repeat constructor) eq_refl)
    as (p & Hp & Hlast & _ & _ & Hpolls).
  exists p. repeat split; assumption.
Defined.

(** ** [is_grass_command] *)

Lemma split_on_not_nil (sep : ascii) (s : string) : split_on sep s <> [].
Proof.
  destruct s as [| c r]; simpl; [discriminate |].
  destruct (Ascii.eqb c sep); [discriminate |].
  destruct (split_on sep r); discriminate.
Qed.

Lemma first_piece_cons (sep c : ascii) (r : string) :
  nth 0 (split_on sep (String c r)) EmptyString
  = if Ascii.eqb c sep then EmptyString
    else String c (nth 0 (split_on sep r) EmptyString).
Proof.
  simpl. destruct (Ascii.eqb c sep); [reflexivity |].
  pose proof (split_on_not_nil sep r) as Hne.
  destruct (split_on sep r); [contradiction | reflexivity].
Qed.

(** The first piece is the text up to the first separator. *)
Lemma first_piece_spec (sep : ascii) (s : string) :
  s = nth 0 (split_on sep s) EmptyString
  \/ exists rest, s = nth 0 (split_on sep s) EmptyString ++ String sep rest.
Proof.
  induction s as [| c r IH]; [now left |].
  rewrite first_piece_cons. destruct (Ascii.eqb c sep) eqn:E.
  - apply Ascii.eqb_eq in E. subst c. right. now exists r.
  - destruct IH as [IH | [rest IH]].
    + left. now rewrite <- IH.
    + right. exists rest. simpl. now rewrite <- IH.
Qed.

Lemma first_piece_of (sep : ascii) (p rest : string) :
  contains_char sep p = false ->
  nth 0 (split_on sep p) EmptyString = p
  /\ nth 0 (split_on sep (p ++ String sep rest)) EmptyString = p.
Proof.
  induction p as [| c r IH]; intro Hp.
  - split; [reflexivity |]. simpl append. rewrite first_piece_cons.
    now rewrite Ascii.eqb_refl.
  - simpl in Hp. apply orb_false_iff in Hp. destruct Hp as [Hc Hr].
    destruct (IH Hr) as [IH1 IH2]. simpl append.
    rewrite !first_piece_cons, Hc, IH1, IH2. split; reflexivity.
Qed.

Lemma mem_true_In (x : string) (xs : list string) : mem x xs = true -> In x xs.
Proof.
  unfold mem. intro Hm. apply existsb_exists in Hm.
  destruct Hm as (y & Hin & Heq). apply String.eqb_eq in Heq. now subst.
Qed.

Lemma families_have_no_dot (p : string) :
  In p grass_families -> contains_char DOT p = false.
Proof.
  unfold grass_families. simpl.
  intros [<- | [<- | [<- | [<- | [<- | [<- | []]]]]]]; reflexivity.
Qed.

(** X14. A text counts as a GRASS command exactly when it is one of the
    family names r, v, i, t, g, r3, or starts with one of them followed by
    a dot; what follows the dot is not looked at. *)
Theorem grass_command_families (s : string) :
  is_grass_command s = true
  <-> exists p, In p grass_families
                /\ (s = p \/ exists rest, s = p ++ String DOT rest).
Proof.
  unfold is_grass_command. split.
  - intro Hm. apply mem_true_In in Hm.
    exists (nth 0 (split_on DOT s) EmptyString). split; [exact Hm |].
    apply first_piece_spec.
  - intros (p & Hin & Hs). apply mem_In.
    destruct (first_piece_of DOT p EmptyString (families_have_no_dot p Hin))
      as [Hp _].
    destruct Hs as [-> | [rest ->]]; [now rewrite Hp |].
    destruct (first_piece_of DOT p rest (families_have_no_dot p Hin))
      as [_ Hpr].
    now rewrite Hpr.
Qed.

Lemma grass_command_families_witness :
  is_grass_command "r3.info" = true.
Proof.
  apply (proj2 (grass_command_families "r3.info")).
  exists "r3". split; [do 5 right; now left |].
  right. now exists "info".
Defined.

(** ** [execute_script] *)

Lemma is_command_line_false (line : string) :
  is_command_line line = false
  <-> line = EmptyString \/ startswith_char HASH line = true.
Proof.
  destruct line as [| c r]; simpl.
  - split; auto.
  - rewrite negb_false_iff. split; [auto | intros [Hn | Hh]; [discriminate | auto]].
Qed.

(** X15. A line that is blank or whose first character after the leading
    white space is the comment character contributes nothing: the commands
    of a script are the same with the line and without it, so such a line
    is not even tokenized. *)
Theorem script_skips_comments (a : list string) (c : string) (b : list string) :
  strip_ws c = EmptyString \/ startswith_char HASH (strip_ws c) = true ->
  script_commands (a ++ c :: b) = script_commands (a ++ b).
Proof.
  intro Hc. apply is_command_line_false in Hc.
  induction a as [| x rest IH]; simpl.
  - now rewrite Hc.
  - now rewrite IH.
Qed.

Lemma lstrip_ws_start (s : string) (c : ascii) (r : string) :
  lstrip_ws s = String c r -> is_space c = false.
Proof.
  induction s as [| x t IH]; [discriminate |].
  simpl. destruct (is_space x) eqn:E; [exact IH |].
  intro Heq. inversion Heq; subst. exact E.
Qed.

Lemma rstrip_ws_cons (x : ascii) (r : string) :
  rstrip_ws (String x r) =
  match rstrip_ws r with
  | EmptyString => if is_space x then EmptyString else chr x
  | r' => String x r'
  end.
Proof. reflexivity. Qed.

Lemma rstrip_ws_head (s : string) (c : ascii) (r' : string) :
  rstrip_ws s = String c r' -> exists r, s = String c r.
Proof.
  destruct s as [| x r]; [discriminate |].
  rewrite rstrip_ws_cons.
  destruct (rstrip_ws r); [destruct (is_space x); [discriminate |] |];
    intro Heq; inversion Heq; subst; eauto.
Qed.

(** A stripped line does not start with white space. *)
Lemma strip_ws_start (line : string) (c : ascii) (r : string) :
  strip_ws line = String c r -> is_space c = false.
Proof.
  unfold strip_ws. intro Hs.
  destruct (rstrip_ws_head _ _ _ Hs) as [t Ht].
  exact (lstrip_ws_start line c t Ht).
Qed.

Lemma normalize_token_not_empty (token t : string) :
  token <> EmptyString -> normalize_token token = Ok t -> t <> EmptyString.
Proof.
  intro Hne. unfold normalize_token.
  destruct (contains_char EQ token && has_quote token);
    [| intro Hn; inversion Hn; now subst].
  destruct (EQUALS_MATCHER_split token) as [| par [| val [| x rest]]];
    try discriminate.
  destruct (last_char val); [| discriminate].
  destruct (startswith_char a val); intro Hn; inversion Hn; [| now subst].
  destruct par; discriminate.
Qed.

Lemma first_token_not_empty (c : ascii) (r : string) (toks : list string) :
  is_space c = false ->
  split_grass_command (String c r) = Ok toks ->
  exists t ts, toks = t :: ts /\ t <> EmptyString.
Proof.
  intros Hc. unfold split_grass_command, SPACE_MATCHER_split. cbn [re_split].
  assert (Hsp : Ascii.eqb c SP = false).
  { apply Ascii.eqb_neq. intros ->. discriminate. }
  rewrite Hsp. cbn [andb].
  pose proof (re_split_not_nil SP r) as Hne.
  destruct (re_split SP r) as [| t0 ts0]; [contradiction |].
  cbn [map_result].
  destruct (normalize_token (String c t0)) as [t |] eqn:En; [| discriminate].
  cbn [rbind].
  destruct (map_result normalize_token ts0) as [ts |]; [| discriminate].
  cbn [rbind]. intro Hok. inversion Hok; subst.
  exists t, ts. split; [reflexivity |].
  eapply normalize_token_not_empty; [| exact En]. discriminate.
Qed.

(** X16. When the lines of a script tokenize, there is one command for
    every line that is neither blank nor a comment, and every command is a
    token list that is not empty and starts with a token that is not
    empty: the compiler never skips a line of a script. *)
Theorem script_commands_shape (lines : list string)
    (commands : list (list string)) :
  script_commands lines = Ok commands ->
  length commands
  = length (filter (fun l => is_command_line (strip_ws l)) lines)
  /\ Forall (fun tokens => exists t ts, tokens = t :: ts /\ t <> EmptyString)
            commands.
Proof.
  revert commands. induction lines as [| l rest IH]; intros commands Hs.
  - inversion Hs. split; [reflexivity | constructor].
  - cbn [script_commands filter] in *.
    destruct (is_command_line (strip_ws l)) eqn:El; [| now apply IH].
    destruct (strip_ws l) as [| c r] eqn:Es; [discriminate |].
    destruct (split_grass_command (String c r)) as [toks |] eqn:Et;
      [| discriminate].
    cbn [rbind] in Hs.
    destruct (script_commands rest) as [cs |]; [| discriminate].
    cbn [rbind] in Hs. inversion Hs; subst.
    destruct (IH cs eq_refl) as [IHl IHf]. split.
    + simpl. now rewrite IHl.
    + constructor; [| exact IHf].
      eapply first_token_not_empty; [| exact Et].
      eapply strip_ws_start. exact Es.
Qed.

Section ScriptProperties.
Context `{Runtime}.

Lemma script_commands_raise (a : list string) (l : string) (b : list string)
    (e : exn) :
  Forall (fun x => is_command_line (strip_ws x) = true ->
                   exists toks, split_grass_command (strip_ws x) = Ok toks) a ->
  is_command_line (strip_ws l) = true ->
  split_grass_command (strip_ws l) = Raise e ->
  script_commands (a ++ l :: b) = Raise e.
Proof.
  intros Ha Hl He. induction Ha as [| x rest Hx _ IH]; simpl.
  - now rewrite Hl, He.
  - destruct (is_command_line (strip_ws x)); [| exact IH].
    destruct (Hx eq_refl) as [toks ->]. simpl. now rewrite IH.
Qed.

(** X17. A fault of the tokenizer on a line of the script, the lines
    before it being tokenized or skipped, ends [execute_script] with that
    fault before any command is compiled: nothing is printed and nothing is
    sent. *)
Theorem script_fault_sends_nothing (g : globals) (a : list string)
    (l : string) (b : list string) (e : exn) (mapset : option string)
    (req : response) (script : list response) :
  Forall (fun x => is_command_line (strip_ws x) = true ->
                   exists toks, split_grass_command (strip_ws x) = Ok toks) a ->
  is_command_line (strip_ws l) = true ->
  split_grass_command (strip_ws l) = Raise e ->
  execute_script g (a ++ l :: b) mapset req script = ([], Some (Raise e)).
Proof.
  intros Ha Hl He. unfold execute_script.
  now rewrite (script_commands_raise a l b e Ha Hl He).
Qed.

End ScriptProperties.

Lemma script_skips_comments_witness :
  script_commands
    (["# Example script for actinia shell interface" ++ NL;
      "g.region raster=elevation -p" ++ NL]
     ++ ("   " ++ NL) :: ["r.univar map=elevation" ++ NL])
  = script_commands
      (["# Example script for actinia shell interface" ++ NL;
        "g.region raster=elevation -p" ++ NL]
       ++ ["r.univar map=elevation" ++ NL]).
Proof.
  apply (script_skips_comments
           ["# Example script for actinia shell interface" ++ NL;
            "g.region raster=elevation -p" ++ NL]
           ("   " ++ NL) ["r.univar map=elevation" ++ NL]).
  left. reflexivity.
Defined.

Lemma script_commands_shape_witness :
  length [["g.region"; "raster=elevation"; "-p"];
          ["r.univar"; "map=elevation"]; ["r.info"; "elevation"]]
  = length (filter (fun l => is_command_line (strip_ws l)) script_lines)
  /\ Forall (fun tokens => exists t ts, tokens = t :: ts /\ t <> EmptyString)
            [["g.region"; "raster=elevation"; "-p"];
             ["r.univar"; "map=elevation"]; ["r.info"; "elevation"]].
Proof. exact (script_commands_shape script_lines _ eq_refl). Defined.

Lemma script_fault_sends_nothing_witness :
  execute_script (H := stub_runtime) stub_globals
    ["g.region raster=elevation -p" ++ NL; faulty_line; "r.info elevation" ++ NL]
    None (answer "running") []
  = ([], Some (Raise ValueError)).
Proof.
  apply (script_fault_sends_nothing (H := stub_runtime) stub_globals
           ["g.region raster=elevation -p" ++ NL] faulty_line
           ["r.info elevation" ++ NL]).
  - constructor; [| constructor]. intros _. eexists. reflexivity.
  - reflexivity.
  - reflexivity.
Defined.

(** ** [main] *)

(** One step down the chain of [if] and [elif] of [main]. *)
Ltac main_step :=
  match goal with
  | |- (if ?b then _ else _) = _ -> _ => destruct b eqn:?
  | |- match split_ws ?s with _ => _ end = _ -> _ =>
      destruct (split_ws s) as [| ? [| ? ?]] eqn:?
  | |- rbind ?m _ = _ -> _ => destruct m eqn:?; cbn [rbind]
  end.

Ltac main_walk :=
  unfold main; cbv zeta;
  repeat (main_step; try (let Hx := fresh in intro Hx; discriminate Hx)).

(** X18. [main] hands a command to [send_poll_commands] only when its text
    counts as a GRASS command, and always as a chain of one command: with
    a location as the tokens of [split_grass_command]; without a location
    as the single characters of the text, and then only when no other
    option or flag has chosen an action and there is a command line
    argument. *)
Theorem command_dispatch (c : cli) (commands : list (list string))
    (m : pyarg) :
  main c = Ok (call_send_poll_commands commands m) ->
  is_grass_command (opt_grass_command c) = true
  /\ m = (if given (opt_mapset c) then PStr (opt_mapset c) else PFalse)
  /\ ((given (opt_location c) = true
       /\ exists tokens,
            split_grass_command (opt_grass_command c) = Ok tokens
            /\ commands = [tokens])
      \/ (given (opt_location c) = false
          /\ commands = [chars_of (opt_grass_command c)]
          /\ 1 < argc c
          /\ given (opt_script c) = false
          /\ given (opt_list_jobs c) = false
          /\ flag_l c = false)).
Proof.
  main_walk; intro Hc; inversion Hc; subst;
    (split; [reflexivity | split; [reflexivity |]]).
  - left. split; [reflexivity |]. eexists. split; reflexivity.
  - right. repeat split; try reflexivity. now apply Nat.ltb_lt.
Qed.

Lemma command_dispatch_witness :
  is_grass_command "g.list raster" = true
  /\ PFalse = PFalse
  /\ ((given EmptyString = true
       /\ exists tokens,
            split_grass_command "g.list raster" = Ok tokens
            /\ [chars_of "g.list raster"] = [tokens])
      \/ (given EmptyString = false
          /\ [chars_of "g.list raster"] = [chars_of "g.list raster"]
          /\ 1 < 2
          /\ given EmptyString = false
          /\ given EmptyString = false
          /\ false = false)).
Proof.
  exact (command_dispatch (with_command EmptyString)
           [chars_of "g.list raster"] PFalse eq_refl).
Defined.

(** X19. [main] lists the maps of a mapset in two ways only: with a
    location and a mapset, for the named mapset; or without a location,
    and then with the [True] of the flag in the place of the mapset name.
    With a location and without a mapset the three flags list nothing. *)
Theorem map_listing_dispatch (c : cli) (m : pyarg) (map_type : string) :
  main c = Ok (call_list_maps_of_mapsets m map_type) ->
  In map_type ["raster_layers"; "vector_layers"; "strds"]
  /\ ((given (opt_location c) = true /\ given (opt_mapset c) = true
       /\ m = PStr (opt_mapset c))
      \/ (given (opt_location c) = false /\ m = PTrue)).
Proof.
  main_walk; intro Hc; inversion Hc; subst;
    (split; [simpl; auto |]);
    try (right; split; reflexivity);
    left;
    repeat match goal with
           | Hb : (_ && _)%bool = true |- _ =>
               apply andb_true_iff in Hb; destruct Hb
           end;
    repeat split; try assumption; try reflexivity;
    match goal with
    | Hg : given (opt_mapset c) = true |- _ => now rewrite Hg
    end.
Qed.

Lemma map_listing_dispatch_witness :
  In "raster_layers" ["raster_layers"; "vector_layers"; "strds"]
  /\ ((given EmptyString = true /\ given EmptyString = true
       /\ PTrue = PStr EmptyString)
      \/ (given EmptyString = false /\ PTrue = PTrue)).
Proof.
  exact (map_listing_dispatch (with_raster_flag EmptyString EmptyString EmptyString)
           PTrue "raster_layers" eq_refl).
Defined.

(** X20. With a location, [main] never comes to the job options or to the
    listing of locations: whatever else is given, it does not list, show
    or kill jobs and does not list the locations. *)
Theorem location_excludes_jobs (c : cli) (k : call) :
  given (opt_location c) = true ->
  main c = Ok k ->
  match k with
  | call_list_user_jobs _ | call_show_user_job_info _
  | call_kill_user_job _ | call_list_user_locations => False
  | _ => True
  end.
Proof.
  intro Hloc. unfold main. cbv zeta. rewrite Hloc.
  repeat (main_step; try (let Hx := fresh in intro Hx; discriminate Hx));
    intro Hc; inversion Hc; exact I.
Qed.

Lemma location_excludes_jobs_witness :
  match main (with_raster_flag "nc_spm_08" EmptyString "running") with
  | Ok (call_list_user_jobs _) | Raise _ => False
  | Ok _ => True
  end.
Proof.
  exact (location_excludes_jobs
           (with_raster_flag "nc_spm_08" EmptyString "running")
           no_call eq_refl eq_refl).
Defined.

Lemma split_ws_cons2 (c d : ascii) (r : string) :
  split_ws (String c (String d r))
  = if is_space c then split_ws (String d r)
    else if is_space d then chr c :: split_ws (String d r)
    else match split_ws (String d r) with
         | t :: ts => String c t :: ts
         | [] => [chr c]
         end.
Proof. reflexivity. Qed.

(** The words of [split] are not empty and hold no white space. *)
Lemma split_ws_words (s : string) :
  Forall (fun w => w <> EmptyString /\ has_space w = false) (split_ws s).
Proof.
  induction s as [| c r IH]; [constructor |].
  destruct r as [| d r'].
  - simpl. destruct (is_space c) eqn:Ec; [constructor |].
    constructor; [| constructor]. split; [discriminate |].
    simpl. now rewrite Ec.
  - rewrite split_ws_cons2. destruct (is_space c) eqn:Ec; [exact IH |].
    destruct (is_space d) eqn:Ed.
    + constructor; [| exact IH]. split; [discriminate |].
      simpl. now rewrite Ec.
    + destruct (split_ws (String d r')) as [| t ts].
      * constructor; [| constructor]. split; [discriminate |].
        simpl. now rewrite Ec.
      * inversion IH as [| ? ? [Ht Hs] Hts]; subst.
        constructor; [| exact Hts]. split; [discriminate |].
        simpl. now rewrite Ec, Hs.
Qed.

(** X21. The option for a new location is read as words: with fewer than
    two words, and so for a text of white space only, [main] raises
    [IndexError]; otherwise the location is made from the first word with
    the second as its EPSG code, further words are dropped, and neither
    word is empty or holds white space. *)
Theorem create_location_words (c : cli) :
  flag_a c = false ->
  given (opt_create_location c) = true ->
  (length (split_ws (opt_create_location c)) < 2 -> main c = Raise IndexError)
  /\ (forall location epsg_code rest,
        split_ws (opt_create_location c) = location :: epsg_code :: rest ->
        main c = Ok (call_create_persistent_location location epsg_code)
        /\ location <> EmptyString /\ has_space location = false
        /\ epsg_code <> EmptyString /\ has_space epsg_code = false).
Proof.
  intros Ha Hc. unfold main. cbv zeta. rewrite Ha, Hc.
  pose proof (split_ws_words (opt_create_location c)) as Hw.
  split.
  - intro Hlen.
    destruct (split_ws (opt_create_location c)) as [| w0 [| w1 ws]];
      simpl in Hlen; try reflexivity. lia.
  - intros location epsg_code rest Hs. rewrite Hs in *.
    inversion Hw as [| ? ? [H0 H0s] Hw']; subst.
    inversion Hw' as [| ? ? [H1 H1s] _]; subst.
    repeat split; assumption.
Qed.

Lemma create_location_words_witness :
  main (with_create_location "latlon 4326")
  = Ok (call_create_persistent_location "latlon" "4326").
Proof.
  exact (proj1 (proj2 (create_location_words
                         (with_create_location "latlon 4326") eq_refl eq_refl)
                  "latlon" "4326" [] eq_refl)).
Defined.

(** X22. [main] itself raises in two places only: at the words of the
    option for a new location, with [IndexError], and, with a location,
    at the tokenizing of a GRASS command, with the fault of the
    tokenizer. *)
Theorem main_faults (c : cli) (e : exn) :
  main c = Raise e ->
  (flag_a c = false /\ given (opt_create_location c) = true
   /\ length (split_ws (opt_create_location c)) < 2 /\ e = IndexError)
  \/ (given (opt_location c) = true
      /\ is_grass_command (opt_grass_command c) = true
      /\ split_grass_command (opt_grass_command c) = Raise e).
Proof.
  main_walk; intro Hc; inversion Hc; subst.
  - left. repeat split; simpl; lia.
  - left. repeat split; simpl; lia.
  - right. repeat split.
Qed.

Lemma main_faults_witness :
  (false = false /\ given "latlon" = true
   /\ length (split_ws "latlon") < 2 /\ IndexError = IndexError)
  \/ (given EmptyString = true
      /\ is_grass_command EmptyString = true
      /\ split_grass_command EmptyString = Raise IndexError).
Proof.
  exact (main_faults (with_create_location "latlon") IndexError eq_refl).
Defined.

(** ** The listings *)

Section ListingProperties.
Context `{Runtime}.
Variable lower : string -> string.

Lemma print_job_well_formed (entry : json) :
  job_fields entry <> None ->
  print_job entry = (job_line entry, Some (Ok tt)).
Proof.
  unfold job_line, job_fields, print_job, lift, bind, emit.
  destruct (getitem entry "resource_id"); [| congruence].
  destruct (getitem entry "status"); [| congruence].
  destruct (getitem entry "datetime"); [| congruence].
  reflexivity.
Qed.

Lemma job_fields_status (entry : json) :
  job_fields entry <> None -> exists status, getitem entry "status" = Ok status.
Proof.
  unfold job_fields.
  destruct (getitem entry "resource_id"); [| congruence].
  destruct (getitem entry "status"); [eauto | congruence].
Qed.

Lemma jobs_loop (wanted : string) (entries : list json) :
  Forall (fun e => job_fields e <> None) entries ->
  for_each entries (fun entry =>
    if String.eqb wanted "all" then print_job entry
    else
      bind (lift (getitem entry "status")) (fun status =>
      if is_str status wanted then print_job entry else ret tt))
  = (flat_map job_line (filter (job_selected wanted) entries), Some (Ok tt)).
Proof.
  induction 1 as [| e rest He _ IH]; [reflexivity |].
  cbn [for_each filter]. rewrite IH. unfold job_selected at 2.
  destruct (String.eqb wanted "all").
  - rewrite (print_job_well_formed e He). reflexivity.
  - destruct (job_fields_status e He) as [st Hst]. rewrite Hst.
    rewrite bind_lift_ok. cbn [orb]. destruct (is_str st wanted).
    + rewrite (print_job_well_formed e He). reflexivity.
    + reflexivity.
Qed.

(** X23. On a resource list whose jobs have their three fields,
    [list_user_jobs] prints, after its one GET and in the order of the
    list, a line for every job when the type in lower case is [all], and
    otherwise for exactly the jobs whose status is the type in lower
    case. *)
Theorem jobs_listing (g : globals) (type_ : string) (r : response)
    (data : json) (entries : list json) :
  loads (text r) = Some data ->
  getitem data "resource_list" = Ok (JArray entries) ->
  Forall (fun e => job_fields e <> None) entries ->
  list_user_jobs lower g type_ r
  = ((Get (jobs_url g)
      :: flat_map job_line (filter (job_selected (lower type_)) entries))%list,
     Some (Ok tt)).
Proof.
  intros Hl Hr He. unfold list_user_jobs. rewrite Hl, Hr.
  rewrite bind_lift_ok. cbn [iter]. rewrite bind_lift_ok.
  rewrite (jobs_loop (lower type_) entries He). reflexivity.
Qed.

(** X24. The listing of locations prints one value after its GET: for an
    answer that is a mapping, the field [locations] when it is there and
    the whole mapping when it is not, and then it never fails.  An answer
    that does not parse raises the error of the parser, and an answer that
    is one JSON string in which the word occurs passes the membership test
    and fails at the lookup with [TypeError]. *)
Theorem locations_listing (g : globals) (r : response) :
  let get := Get (ACTINIA_URL g ++ "/api/" ++ ACTINIA_VERSION g ++ "/locations") in
  (loads (text r) = None ->
     list_user_locations g r = ([get], Some (Raise JSONDecodeError)))
  /\ (forall fields,
        loads (text r) = Some (JObject fields) ->
        list_user_locations g r
        = ([get; PPrint (match assoc "locations" fields with
                         | Some v => v
                         | None => JObject fields
                         end)],
           Some (Ok tt)))
  /\ (forall s,
        loads (text r) = Some (JString s) ->
        list_user_locations g r
        = if is_substring "locations" s
          then ([get], Some (Raise TypeError))
          else ([get; PPrint (JString s)], Some (Ok tt))).
Proof.
  intro get. unfold list_user_locations, pprint_field_or_all.
  split; [| split].
  - intros ->. reflexivity.
  - intros fields ->. unfold key_in, getitem.
    destruct (assoc "locations" fields); reflexivity.
  - intros s ->. unfold key_in, getitem.
    destruct (is_substring "locations" s); reflexivity.
Qed.

End ListingProperties.

Lemma jobs_listing_witness :
  list_user_jobs (H := stub_listing) lower_ascii stub_globals "FINISHED"
    {| status_code := 200; text := jobs_text |}
  = ([Get "https://actinia.mundialis.de/api/v3/resources/demouser";
      Print [AVal (JString "resource_id-1"); AVal (JString "finished");
             AVal (JString "2021-05-01 10:00:00")];
      Print [AVal (JString "resource_id-3"); AVal (JString "finished");
             AVal (JString "2021-05-01 10:00:00")]],
     Some (Ok tt)).
Proof.
  apply (jobs_listing (H := stub_listing) lower_ascii stub_globals "FINISHED"
           {| status_code := 200; text := jobs_text |}
           (JObject [("resource_list", JArray jobs_list)]) jobs_list
           eq_refl eq_refl).
  repeat constructor; discriminate.
Defined.

Lemma locations_listing_witness :
  list_user_locations (H := stub_listing) stub_globals
    {| status_code := 200; text := locations_text |}
  = ([Get "https://actinia.mundialis.de/api/v3/locations";
      PPrint (JArray [JString "nc_spm_08"])],
     Some (Ok tt)).
Proof.
  exact (proj1 (proj2 (locations_listing (H := stub_listing) stub_globals
                         {| status_code := 200; text := locations_text |}))
           [("locations", JArray [JString "nc_spm_08"]);
            ("status", JString "success")] eq_refl).
Defined.

(** ** What the chain keeps and what the reporter can fail on *)

Section ChainInvariant.
Context `{Runtime}.

(** X25. The chain only grows at its end: when the loop over the commands
    returns, the operations that were in the chain are still there, in
    their places, followed by at most one operation for each command, and
    none of the added operations is empty. *)
Theorem chain_append_only (commands : list (list string))
    (chain chain' : list json) :
  build_chain chain commands = Ok chain' ->
  exists ops,
    chain' = (chain ++ ops)%list
    /\ length ops <= length commands
    /\ Forall (fun p => truthy p = true) ops.
Proof.
  revert chain. induction commands as [| c rest IH]; intros chain Hb.
  - simpl in Hb. inversion Hb. exists []. rewrite app_nil_r.
    repeat split; [simpl; lia | constructor].
  - simpl in Hb.
    destruct (create_actinia_process c) as [p |]; [| discriminate].
    simpl in Hb. destruct (IH _ Hb) as (ops & Hc & Hlen & Hall).
    unfold append_process in Hc. destruct (truthy p) eqn:Ep.
    + exists (p :: ops). rewrite <- app_assoc in Hc.
      repeat split; [exact Hc | simpl; lia | now constructor].
    + exists ops. repeat split; [exact Hc | simpl; lia | exact Hall].
Qed.

End ChainInvariant.

Lemma chain_append_only_witness :
  exists ops,
    [region_process; region_process] = ([region_process] ++ ops)%list
    /\ length ops <= length [[]; region_command]
    /\ Forall (fun p => truthy p = true) ops.
Proof.
  exact (chain_append_only (H := stub_runtime) [[]; region_command]
           [region_process] [region_process; region_process] eq_refl).
Defined.




(** ** A command given without a location *)

Lemma chars_of_single (s x : string) :
  mem x (chars_of s) = true -> String.length x = 1.
Proof.
  intro Hm. apply mem_true_In in Hm.
  induction s as [| c r IH]; [contradiction |].
  destruct Hm as [<- | Hin]; [reflexivity | auto].
Qed.

Lemma chars_of_no_flag (s flag : string) :
  String.length flag <> 1 -> mem flag (chars_of s) = false.
Proof.
  intro Hlen. destruct (mem flag (chars_of s)) eqn:E; [| reflexivity].
  apply chars_of_single in E. contradiction.
Qed.

(** X27. The list of characters that [main] passes for a command without a
    location never holds the help flag, so the compiler's check for it
    cannot reject such a command; it never holds the structured-output
    flag either, so that flag is always appended; and the program the
    compiler starts is named by the first character of the command
    alone. *)
Theorem character_commands (s : string) :
  is_grass_command s = true ->
  mem help_flag (chars_of s) = false
  /\ exists c r,
       s = String c r
       /\ with_json_flag (chars_of s)
          = (chr c :: chars_of r ++ [json_flag])%list.
Proof.
  intro Hg. split; [apply chars_of_no_flag; discriminate |].
  destruct s as [| c r]; [discriminate |].
  exists c, r. split; [reflexivity |].
  unfold with_json_flag. now rewrite chars_of_no_flag by discriminate.
Qed.

Lemma character_commands_witness :
  mem help_flag (chars_of "g.region --help") = false
  /\ exists c r,
       "g.region --help" = String c r
       /\ with_json_flag (chars_of "g.region --help")
          = (chr c :: chars_of r ++ [json_flag])%list.
Proof. exact (character_commands "g.region --help" eq_refl). Defined.
